(** * PhysNetCalculator: a shallow embedding of [calculator.py]

    The ASE calculator that wraps a pre-trained PhysNet network is modelled
    as a record ([Calc], the instance attributes of [self]) threaded through
    a state-and-exception monad.  The libraries the calculator calls (ASE's
    neighbour search, torch's checkpoint loader, the PhysNet network) are
    Section variables: the calculator is verified against every behaviour
    of theirs. *)

From Stdlib Require Import ZArith QArith Qcanon.
From stdpp Require Import base tactics option list numbers sorting strings gmap.

Local Open Scope Z_scope.

(** ** Python exceptions and fallible pure code *)

Inductive exn : Set :=
  | TypeError | ValueError | IndexError | KeyError
  | AttributeError | RuntimeError | SystemExit.

(** A computation that either raises or returns. *)
Definition res (A : Type) : Type := exn + A.

Definition rret {A} (a : A) : res A := inr a.
Definition rraise {A} (e : exn) : res A := inl e.
Definition rbind {A B} (m : res A) (k : A -> res B) : res B :=
  match m with inl e => inl e | inr a => k a end.

(** ** Integer tensors (torch, one dimension) *)

Module Torch.

(** [torch.arange(end=N)]: 0, 1, ..., N-1. *)
Definition arange (N : nat) : list Z := Z.of_nat <$> seq 0 N.

(** [torch.arange(start, end)]: start, ..., end-1; torch refuses an upper
    bound below the lower one. *)
Definition arange2 (a b : Z) : res (list Z) :=
  if b <? a then rraise RuntimeError
  else rret ((fun k => a + Z.of_nat k) <$> seq 0 (Z.to_nat (b - a))).

(** [t.repeat(n)]: the tensor tiled [n] times; a negative count is
    refused. *)
Definition repeat (t : list Z) (n : Z) : res (list Z) :=
  if n <? 0 then rraise RuntimeError
  else rret (concat (replicate (Z.to_nat n) t)).

(** [torch.roll(t, shift, dims=0)]: the element at position [p] moves to
    position [(p + shift) mod len]; so the result starts with the element
    at position [(-shift) mod len]. *)
Definition roll (t : list Z) (shift : Z) : list Z :=
  let n := Z.of_nat (length t) in
  if n =? 0 then []
  else let k := Z.to_nat ((- shift) mod n) in drop k t ++ take k t.

(** [torch.sort(t)[0]]: the values in ascending order. *)
Definition sort (t : list Z) : list Z := merge_sort Z.le t.

End Torch.

(** ** Configurations (the part of [ase.Atoms] the calculator reads) *)

Definition vec3 : Type := Qc * Qc * Qc.

Record Atoms : Type := mkAtoms {
  numbers : list Z;                 (* atoms.get_atomic_numbers() *)
  positions : list vec3;            (* atoms.get_positions() *)
  cell : vec3 * vec3 * vec3;        (* atoms.get_cell(), three rows *)
  pbc : bool * bool * bool          (* atoms.get_pbc() *)
}.

(** [len(atoms)] *)
Definition atoms_len (atoms : Atoms) : nat := length (positions atoms).

(** ** [get_indices] (source lines 151-168) *)

Definition get_indices (atoms : Atoms) : res (list Z * list Z) :=
  let N := atoms_len atoms in
  let idx := Torch.arange N in
  rbind (Torch.repeat idx (Z.of_nat N - 1)) (fun idx_i =>
  let idx_j := Torch.roll idx (-1) in
  rbind (if 2 <=? Z.of_nat N then
           rbind (Torch.arange2 2 (Z.of_nat N)) (fun Nas =>
           rret (fold_left
                   (fun idx_j Na => idx_j ++ Torch.roll idx (- Na))
                   Nas idx_j))
         else rret idx_j) (fun idx_j =>
  let idx_i := Torch.sort idx_i in
  rret (idx_i, idx_j))).

(** ** Floating-point values

    A float is modelled by its exact rational value, or one of the IEEE
    special values; rounding is not modelled, and zero carries no sign (a
    zero divisor is read as +0, which is what [alpha - 1] and [nu - 3] give
    when they vanish). *)

Inductive npfloat : Set := Fin (q : Qc) | PInf | NInf | NaN.

Module Np.

Definition sign (q : Qc) : comparison := (q ?= 0)%Qc.

Definition neg (x : npfloat) : npfloat :=
  match x with
  | Fin q => Fin (- q)%Qc | PInf => NInf | NInf => PInf | NaN => NaN
  end.

Definition add (x y : npfloat) : npfloat :=
  match x, y with
  | NaN, _ | _, NaN => NaN
  | Fin a, Fin b => Fin (a + b)%Qc
  | PInf, NInf | NInf, PInf => NaN
  | PInf, _ | _, PInf => PInf
  | NInf, _ | _, NInf => NInf
  end.

Definition sub (x y : npfloat) : npfloat := add x (neg y).

(** The infinity with the sign of [c] times the sign of [x]; NaN for a
    zero [c]. *)
Definition scale_inf (c : comparison) (x : npfloat) : npfloat :=
  match c with Gt => x | Lt => neg x | Eq => NaN end.

Definition mul (x y : npfloat) : npfloat :=
  match x, y with
  | NaN, _ | _, NaN => NaN
  | Fin a, Fin b => Fin (a * b)%Qc
  | Fin a, inf => scale_inf (sign a) inf
  | inf, Fin b => scale_inf (sign b) inf
  | PInf, PInf | NInf, NInf => PInf
  | PInf, NInf | NInf, PInf => NInf
  end.

(** Division does not raise: a zero divisor gives an infinity, or NaN for
    0/0 (numpy and torch only warn). *)
Definition div (x y : npfloat) : npfloat :=
  match x, y with
  | NaN, _ | _, NaN => NaN
  | Fin a, Fin b =>
      match sign b with
      | Eq => scale_inf (sign a) PInf
      | _ => Fin (a / b)%Qc
      end
  | Fin _, _ => Fin 0%Qc
  | inf, Fin b => match sign b with Lt => neg inf | _ => inf end
  | _, _ => NaN
  end.

End Np.

(** An array of floats, flattened; a zero-dimensional array (a scalar) is a
    one-element list. *)
Abbreviation ndarray := (list npfloat).

Abbreviation matrix := (list (list npfloat)).

Module Numpy.

(** [a op b] for two arrays: elementwise for equal shapes, a one-element
    operand is broadcast, any other pair of shapes is refused. *)
Definition elementwise (op : npfloat -> npfloat -> npfloat)
    (a b : ndarray) : res ndarray :=
  if (length a =? length b)%nat then rret (zip_with op a b)
  else match a, b with
       | [x], _ => rret (op x <$> b)
       | _, [y] => rret ((fun x => op x y) <$> a)
       | _, _ => rraise ValueError
       end.

(** [a op c] and [c op a] for a Python number [c]. *)
Definition scalar_r (op : npfloat -> npfloat -> npfloat)
    (a : ndarray) (c : npfloat) : ndarray := (fun x => op x c) <$> a.
Definition scalar_l (op : npfloat -> npfloat -> npfloat)
    (c : npfloat) (a : ndarray) : ndarray := op c <$> a.

(** [t[k]] on a one-dimensional tensor. *)
Definition index (t : ndarray) (k : nat) : res npfloat :=
  match t !! k with Some x => rret x | None => rraise IndexError end.

(** [np.dot(S, cell)]: integer image shifts times the cell rows. *)
Definition dot_cell (S : list (Z * Z * Z)) (c : vec3 * vec3 * vec3)
    : list vec3 :=
  let '(r0, r1, r2) := c in
  (fun s : Z * Z * Z =>
     let '(s0, s1, s2) := s in
     let comp (p : vec3 -> Qc) : Qc :=
       (Qc_of_Z s0 * p r0 + Qc_of_Z s1 * p r1 + Qc_of_Z s2 * p r2)%Qc in
     (comp (fun v => v.1.1), comp (fun v => v.1.2), comp (fun v => v.2)))
  <$> S.

(** Matrices: [L.transpose(1, 0)], [torch.matmul], a scalar factor, and
    [m[i, j]]. *)
Definition column (k : nat) (m : matrix) : list npfloat :=
  (fun row : ndarray => default (Fin 0%Qc) (row !! k)) <$> m.
Definition transpose (m : matrix) : matrix :=
  (fun k => column k m) <$> seq 0 (length (default [] (head m))).
Definition dot (u v : list npfloat) : npfloat :=
  foldr Np.add (Fin 0%Qc) (zip_with Np.mul u v).
Definition matmul (a b : matrix) : matrix :=
  (fun row : ndarray => dot row <$> transpose b) <$> a.
Definition mscale (c : npfloat) (m : matrix) : matrix :=
  (fun row : ndarray => Np.mul c <$> row) <$> m.
Definition mindex (m : matrix) (i j : nat) : res npfloat :=
  match m !! i with
  | Some row => index row j
  | None => rraise IndexError
  end.

End Numpy.

(** ** The network object and the calculator's attributes *)

(** The four entry points of the loaded PhysNet model that [calculate]
    uses.  The arguments are [Z], [R], [idx_i], [idx_j], [Q_tot] and, for
    the first two, [offsets], [sr_idx_i], [sr_idx_j], [sr_offsets]
    ([batch_seg] is always [None]). *)
Record PhysNetModel : Type := mkModel {
  energy_forces_and_hessian_evidential :
    list Z -> list vec3 -> list Z -> list Z -> Qc ->
    option (list vec3) -> option (list Z) -> option (list Z) ->
    option (list vec3) ->
    res (ndarray * ndarray * ndarray * ndarray * ndarray * ndarray * ndarray);
  energy_forces_and_others_evidential :
    list Z -> list vec3 -> list Z -> list Z -> Qc ->
    option (list vec3) -> option (list Z) -> option (list Z) ->
    option (list vec3) ->
    res (ndarray * ndarray * ndarray * ndarray * ndarray * ndarray);
  energy_hessian_and_forces_md_evidencial :
    list Z -> list vec3 -> list Z -> list Z -> Qc ->
    res (ndarray * ndarray * ndarray * ndarray);
  energy_and_forces_md_evidencial :
    list Z -> list vec3 -> list Z -> list Z -> Qc ->
    res (ndarray * ndarray * ndarray)
}.

Inductive entry_point : Set :=
  | EFH_evidential | EFO_evidential | EHF_md_evidencial | EF_md_evidencial.

(** What the calculator does to the outside, newest first.  The trace is
    not an attribute of the Python object: it records the calls so that
    properties about them can be stated. *)
Inductive event : Type :=
  | Calculate (atoms : Atoms)
  | NeighborList (cutoff : option Qc)
  | ModelCall (entry : entry_point).

(** A value stored in [self.results]. *)
Inductive pyval : Type := PyArray (a : ndarray) | PyNone.

Definition of_hessian (h : option ndarray) : pyval :=
  match h with Some a => PyArray a | None => PyNone end.

(** The hyper-parameters read from the config file. *)
Record Args : Type := mkArgs {
  num_features : Z; num_basis : Z; num_blocks : Z;
  num_residual_atomic : Z; num_residual_interaction : Z;
  num_residual_output : Z;
  cutoff : Qc;
  use_electrostatic : Z; use_dispersion : Z;
  grimme_s6 : option Qc; grimme_s8 : option Qc;
  grimme_a1 : option Qc; grimme_a2 : option Qc;
  arg_device : string;
  arg_DER_type : option string
}.

(** The instance attributes.  An attribute of type [option A] written
    "unset/set" is [None] until the first assignment; reading it before
    raises [AttributeError].  [_last_atoms] and a set [_last_hessian] hold
    Python's [None] or a value. *)
Record Calc : Type := mkCalc {
  _sr_cutoff : Qc;
  _lr_cutoff : option Qc;
  _use_neighborlist : bool;
  self_pbc : bool * bool * bool;
  self_cell : vec3;
  device : string;
  hessian_active : bool;
  DER_type : option string;
  _checkpoint : option string;
  _model : PhysNetModel;
  _Z : list Z;
  _R : list vec3;
  _Q_tot : Qc;
  _idx_i : list Z;
  _idx_j : list Z;
  _last_atoms : option Atoms;
  _last_energy : option ndarray;            (* unset/set *)
  _last_charges : option ndarray;           (* unset/set *)
  _last_forces : option ndarray;            (* unset/set *)
  _last_hessian : option (option ndarray);  (* unset/set *)
  _sigma2 : option ndarray;                 (* unset/set *)
  _var : option ndarray;                    (* unset/set *)
  results : gmap string pyval;
  trace : list event
}.

(** Attribute assignments. *)
Definition set_R (v : list vec3) (s : Calc) : Calc :=
  mkCalc (_sr_cutoff s) (_lr_cutoff s) (_use_neighborlist s) (self_pbc s)
    (self_cell s) (device s) (hessian_active s) (DER_type s) (_checkpoint s)
    (_model s) (_Z s) v (_Q_tot s) (_idx_i s) (_idx_j s) (_last_atoms s)
    (_last_energy s) (_last_charges s) (_last_forces s) (_last_hessian s)
    (_sigma2 s) (_var s) (results s) (trace s).
Definition set_last_atoms (v : option Atoms) (s : Calc) : Calc :=
  mkCalc (_sr_cutoff s) (_lr_cutoff s) (_use_neighborlist s) (self_pbc s)
    (self_cell s) (device s) (hessian_active s) (DER_type s) (_checkpoint s)
    (_model s) (_Z s) (_R s) (_Q_tot s) (_idx_i s) (_idx_j s) v
    (_last_energy s) (_last_charges s) (_last_forces s) (_last_hessian s)
    (_sigma2 s) (_var s) (results s) (trace s).
Definition set_last_energy (v : ndarray) (s : Calc) : Calc :=
  mkCalc (_sr_cutoff s) (_lr_cutoff s) (_use_neighborlist s) (self_pbc s)
    (self_cell s) (device s) (hessian_active s) (DER_type s) (_checkpoint s)
    (_model s) (_Z s) (_R s) (_Q_tot s) (_idx_i s) (_idx_j s) (_last_atoms s)
    (Some v) (_last_charges s) (_last_forces s) (_last_hessian s)
    (_sigma2 s) (_var s) (results s) (trace s).
Definition set_last_charges (v : ndarray) (s : Calc) : Calc :=
  mkCalc (_sr_cutoff s) (_lr_cutoff s) (_use_neighborlist s) (self_pbc s)
    (self_cell s) (device s) (hessian_active s) (DER_type s) (_checkpoint s)
    (_model s) (_Z s) (_R s) (_Q_tot s) (_idx_i s) (_idx_j s) (_last_atoms s)
    (_last_energy s) (Some v) (_last_forces s) (_last_hessian s)
    (_sigma2 s) (_var s) (results s) (trace s).
Definition set_last_forces (v : ndarray) (s : Calc) : Calc :=
  mkCalc (_sr_cutoff s) (_lr_cutoff s) (_use_neighborlist s) (self_pbc s)
    (self_cell s) (device s) (hessian_active s) (DER_type s) (_checkpoint s)
    (_model s) (_Z s) (_R s) (_Q_tot s) (_idx_i s) (_idx_j s) (_last_atoms s)
    (_last_energy s) (_last_charges s) (Some v) (_last_hessian s)
    (_sigma2 s) (_var s) (results s) (trace s).
Definition set_last_hessian (v : option ndarray) (s : Calc) : Calc :=
  mkCalc (_sr_cutoff s) (_lr_cutoff s) (_use_neighborlist s) (self_pbc s)
    (self_cell s) (device s) (hessian_active s) (DER_type s) (_checkpoint s)
    (_model s) (_Z s) (_R s) (_Q_tot s) (_idx_i s) (_idx_j s) (_last_atoms s)
    (_last_energy s) (_last_charges s) (_last_forces s) (Some v)
    (_sigma2 s) (_var s) (results s) (trace s).
Definition set_sigma2 (v : ndarray) (s : Calc) : Calc :=
  mkCalc (_sr_cutoff s) (_lr_cutoff s) (_use_neighborlist s) (self_pbc s)
    (self_cell s) (device s) (hessian_active s) (DER_type s) (_checkpoint s)
    (_model s) (_Z s) (_R s) (_Q_tot s) (_idx_i s) (_idx_j s) (_last_atoms s)
    (_last_energy s) (_last_charges s) (_last_forces s) (_last_hessian s)
    (Some v) (_var s) (results s) (trace s).
Definition set_var (v : ndarray) (s : Calc) : Calc :=
  mkCalc (_sr_cutoff s) (_lr_cutoff s) (_use_neighborlist s) (self_pbc s)
    (self_cell s) (device s) (hessian_active s) (DER_type s) (_checkpoint s)
    (_model s) (_Z s) (_R s) (_Q_tot s) (_idx_i s) (_idx_j s) (_last_atoms s)
    (_last_energy s) (_last_charges s) (_last_forces s) (_last_hessian s)
    (_sigma2 s) (Some v) (results s) (trace s).
Definition set_results (v : gmap string pyval) (s : Calc) : Calc :=
  mkCalc (_sr_cutoff s) (_lr_cutoff s) (_use_neighborlist s) (self_pbc s)
    (self_cell s) (device s) (hessian_active s) (DER_type s) (_checkpoint s)
    (_model s) (_Z s) (_R s) (_Q_tot s) (_idx_i s) (_idx_j s) (_last_atoms s)
    (_last_energy s) (_last_charges s) (_last_forces s) (_last_hessian s)
    (_sigma2 s) (_var s) v (trace s).
Definition record (ev : event) (s : Calc) : Calc :=
  mkCalc (_sr_cutoff s) (_lr_cutoff s) (_use_neighborlist s) (self_pbc s)
    (self_cell s) (device s) (hessian_active s) (DER_type s) (_checkpoint s)
    (_model s) (_Z s) (_R s) (_Q_tot s) (_idx_i s) (_idx_j s) (_last_atoms s)
    (_last_energy s) (_last_charges s) (_last_forces s) (_last_hessian s)
    (_sigma2 s) (_var s) (results s) (ev :: trace s).

(** The read-only properties of the class (source lines 313-376). *)
Definition last_atoms (self : Calc) := _last_atoms self.
Definition last_energy (self : Calc) := _last_energy self.
Definition last_forces (self : Calc) := _last_forces self.
Definition last_hessian (self : Calc) := _last_hessian self.
Definition variance (self : Calc) := _var self.
Definition sigma2 (self : Calc) := _sigma2 self.
Definition sr_cutoff (self : Calc) := _sr_cutoff self.
Definition lr_cutoff (self : Calc) := _lr_cutoff self.
Definition use_neighborlist (self : Calc) := _use_neighborlist self.
Definition model (self : Calc) := _model self.
Definition checkpoint (self : Calc) := _checkpoint self.
Definition Z_ (self : Calc) := _Z self.
Definition Q_tot (self : Calc) := _Q_tot self.
Definition R_ (self : Calc) := _R self.
Definition idx_i (self : Calc) := _idx_i self.
Definition idx_j (self : Calc) := _idx_j self.

(** ** Methods: state passing with exceptions

    A method takes the object and returns either an exception or a value,
    and the object as the call left it (an exception keeps the assignments
    made before it). *)
Definition M (A : Type) : Type := Calc -> res A * Calc.

Definition ret {A} (a : A) : M A := fun s => (inr a, s).
Definition raise {A} (e : exn) : M A := fun s => (inl e, s).
Definition bind {A B} (m : M A) (k : A -> M B) : M B :=
  fun s => match m s with
           | (inl e, s') => (inl e, s')
           | (inr a, s') => k a s'
           end.
Definition get : M Calc := fun s => (inr s, s).
Definition modify (f : Calc -> Calc) : M unit := fun s => (inr tt, f s).
Definition lift {A} (r : res A) : M A := fun s => (r, s).
(** Reading an attribute that may be unset. *)
Definition attr {A} (f : Calc -> option A) : M A :=
  fun s => match f s with
           | Some a => (inr a, s)
           | None => (inl AttributeError, s)
           end.

Declare Scope calc_scope.
Delimit Scope calc_scope with calc.
Notation "x <- m ;; k" := (bind m (fun x => k))
  (at level 20, m at level 99, k at level 200, only parsing) : calc_scope.
Notation "' p <- m ;; k" := (bind m (fun x => let 'p := x in k))
  (at level 20, p pattern, m at level 99, k at level 200, only parsing)
  : calc_scope.
Notation "m ;; k" := (bind m (fun _ => k))
  (at level 100, k at level 200, right associativity, only parsing)
  : calc_scope.

Local Open Scope calc_scope.

(** ** Comparing configurations

    [atoms != other] on ASE configurations compares by value: positions,
    atomic numbers, cell and periodic flags (and with them the length). *)
Definition atoms_ne (a b : Atoms) : bool :=
  negb (bool_decide (length (positions a) = length (positions b))
        && bool_decide (positions a = positions b)
        && bool_decide (numbers a = numbers b)
        && bool_decide (cell a = cell b)
        && bool_decide (pbc a = pbc b)).

(** [any(atoms.get_pbc())] *)
Definition any_pbc (atoms : Atoms) : bool :=
  let '(x, y, z) := pbc atoms in x || y || z.

(** The truth value of a Python string: empty strings are false. *)
Definition str_truthy (s : string) : bool := negb (String.eqb s "").

(** The condition of source line 205, [self.DER_type == 'simple' or 'Lipz']:
    Python's [or] of a comparison and the string ['Lipz']. *)
Definition dispatch_simple (der : option string) : bool :=
  bool_decide (der = Some "simple"%string) || str_truthy "Lipz".

(** The condition of source line 233, [self.DER_type == 'MD']. *)
Definition dispatch_md (der : option string) : bool :=
  bool_decide (der = Some "MD"%string).

(** [calculation_required] (source lines 170-176) *)
Definition calculation_required (self : Calc) (atoms : Atoms) : bool :=
  match last_atoms self with
  | None => true
  | Some last => atoms_ne atoms last
  end.

(** The contents of a checkpoint file: a dictionary whose entry
    ['model_state_dict'] holds the named weight arrays. *)
Abbreviation StateDict := (list (string * ndarray)).
Abbreviation Checkpoint := (gmap string StateDict).

(** The pair lists handed to the network: [idx_i], [idx_j], [offsets],
    [sr_idx_i], [sr_idx_j], [sr_offsets]. *)
Abbreviation Pairs :=
  (list Z * list Z * option (list vec3) * option (list Z) * option (list Z)
   * option (list vec3))%type.

Section Calculator.

(** [ase.neighborlist.neighbor_list(quantities, atoms, cutoff)]; the
    cutoff is a float or Python's [None]. *)
Variable neighbor_list :
  string -> Atoms -> option Qc -> res (list Z * list Z * list (Z * Z * Z)).

(** Lines 181-196 of [calculate]: the pair lists. *)
Definition find_neighbors (atoms : Atoms) : M Pairs :=
  self <- get;;
  if use_neighborlist self || any_pbc atoms then
    modify (record (NeighborList (lr_cutoff self)));;
    '(idx_i, idx_j, S_) <-
      lift (neighbor_list "ijS" atoms (lr_cutoff self));;
    let offsets := Numpy.dot_cell S_ (cell atoms) in
    modify (record (NeighborList (Some (sr_cutoff self))));;
    '(sr_idx_i, sr_idx_j, sr_S) <-
      lift (neighbor_list "ijS" atoms (Some (sr_cutoff self)));;
    let sr_offsets := Numpy.dot_cell sr_S (cell atoms) in
    ret (idx_i, idx_j, Some offsets,
         Some sr_idx_i, Some sr_idx_j, Some sr_offsets)
  else
    ret (idx_i self, idx_j self, None, None, None, None).

(** Lines 206-231: the branch of ['simple'] and ['Lipz'].  Converting a
    tensor to a numpy array ([detach().cpu().numpy()], [clone()]) does
    not change its values, so lines 225-226 and 229 leave the attributes
    as they are. *)
Definition evidential_branch (p : Pairs) : M unit :=
  let '(idx_i, idx_j, offsets, sr_idx_i, sr_idx_j, sr_offsets) := p in
  self <- get;;
  '(lambdas, alpha, beta) <-
    (if hessian_active self then
       modify (record (ModelCall EFH_evidential));;
       '(E, lambdas, alpha, beta, q, F, H) <-
         lift (energy_forces_and_hessian_evidential (model self)
                 (Z_ self) (R_ self) idx_i idx_j (Q_tot self)
                 offsets sr_idx_i sr_idx_j sr_offsets);;
       modify (set_last_energy E);;
       modify (set_last_charges q);;
       modify (set_last_forces F);;
       modify (set_last_hessian (Some H));;
       ret (lambdas, alpha, beta)
     else
       modify (record (ModelCall EFO_evidential));;
       '(E, lambdas, alpha, beta, q, F) <-
         lift (energy_forces_and_others_evidential (model self)
                 (Z_ self) (R_ self) idx_i idx_j (Q_tot self)
                 offsets sr_idx_i sr_idx_j sr_offsets);;
       modify (set_last_energy E);;
       modify (set_last_charges q);;
       modify (set_last_forces F);;
       ret (lambdas, alpha, beta));;
  v <- lift (Numpy.elementwise Np.div beta
               (Numpy.scalar_r Np.sub alpha (Fin 1%Qc)));;
  modify (set_sigma2 v);;
  sig <- attr sigma2;;
  v <- lift (Numpy.elementwise Np.mul
               (Numpy.scalar_l Np.div (Fin 1%Qc) lambdas) sig);;
  modify (set_var v);;
  if hessian_active self then ret tt
  else modify (set_last_hessian None).

(** Lines 234-268: the branch of ['MD']. *)
Definition md_branch (p : Pairs) : M unit :=
  let '(idx_i, idx_j, _, _, _, _) := p in
  self <- get;;
  pred <-
    (if hessian_active self then
       modify (record (ModelCall EHF_md_evidencial));;
       '(pred, Dip, F, H) <-
         lift (energy_hessian_and_forces_md_evidencial (model self)
                 (Z_ self) (R_ self) idx_i idx_j (Q_tot self));;
       modify (set_last_forces F);;
       modify (set_last_hessian (Some H));;
       ret pred
     else
       modify (record (ModelCall EF_md_evidencial));;
       '(pred, Dip, F) <-
         lift (energy_and_forces_md_evidencial (model self)
                 (Z_ self) (R_ self) idx_i idx_j (Q_tot self));;
       modify (set_last_forces F);;
       ret pred);;
  mu0 <- lift (Numpy.index pred 0);;
  mu1 <- lift (Numpy.index pred 1);;
  let mu := [mu0; mu1] in
  L00 <- lift (Numpy.index pred 2);;
  L10 <- lift (Numpy.index pred 3);;
  L11 <- lift (Numpy.index pred 4);;
  let L := [[L00; Fin 0%Qc]; [L10; L11]] in
  let sigma := Numpy.matmul L (Numpy.transpose L) in
  nu <- lift (Numpy.index pred 5);;
  let sigma2 :=
    Numpy.mscale (Np.div nu (Np.sub nu (Fin (Qc_of_Z 3)))) sigma in
  let var := Numpy.mscale (Np.div (Fin 1%Qc) nu) sigma2 in
  modify (set_last_energy [mu0]);;
  v <- lift (Numpy.mindex sigma 0 0);;
  modify (set_sigma2 [v]);;
  v <- lift (Numpy.mindex var 0 0);;
  modify (set_var [v]);;
  if hessian_active self then ret tt
  else modify (set_last_hessian None).

(** Lines 276-279: the results dictionary and the copy of the
  configuration ([atoms.copy()] is the same value). *)
Definition store_results (atoms : Atoms) : M unit :=
  e <- attr last_energy;;
  modify (fun s => set_results (<["energy"%string := PyArray e]> (results s)) s);;
  f <- attr last_forces;;
  modify (fun s => set_results (<["forces"%string := PyArray f]> (results s)) s);;
  h <- attr last_hessian;;
  modify (fun s => set_results (<["hessian"%string := of_hessian h]> (results s)) s);;
  modify (set_last_atoms (Some atoms)).

(** [calculate] (source lines 178-279) *)
Definition calculate (atoms : Atoms) : M unit :=
  modify (record (Calculate atoms));;
  p <- find_neighbors atoms;;
  modify (set_R (positions atoms));;
  self <- get;;
  (if dispatch_simple (DER_type self) then evidential_branch p
   else if dispatch_md (DER_type self) then md_branch p
   else ret tt);;
  store_results atoms.

(** [self.results[key]] *)
Definition results_get (key : string) : M pyval :=
  fun s => match results s !! key with
           | Some v => (inr v, s)
           | None => (inl KeyError, s)
           end.

(** The accessors (source lines 283-311). *)
Definition get_potential_energy (atoms : Atoms) : M pyval :=
  self <- get;;
  (if calculation_required self atoms then calculate atoms else ret tt);;
  results_get "energy".

Definition get_potential_energy_and_uncertainty (atoms : Atoms)
    : M (ndarray * ndarray * ndarray) :=
  self <- get;;
  (if calculation_required self atoms then calculate atoms else ret tt);;
  e <- attr last_energy;;
  v <- attr variance;;
  s2 <- attr sigma2;;
  ret (e, v, s2).

Definition get_potential_energy_uncertainty_and_forces (atoms : Atoms)
    : M (ndarray * ndarray * ndarray * ndarray) :=
  self <- get;;
  (if calculation_required self atoms then calculate atoms else ret tt);;
  e <- attr last_energy;;
  v <- attr variance;;
  s2 <- attr sigma2;;
  f <- attr last_forces;;
  ret (e, v, s2, f).

Definition get_forces (atoms : Atoms) : M ndarray :=
  self <- get;;
  (if calculation_required self atoms then calculate atoms else ret tt);;
  attr last_forces.

Definition get_hessian (atoms : Atoms) : M (option ndarray) :=
  self <- get;;
  (if calculation_required self atoms then calculate atoms else ret tt);;
  attr last_hessian.

(** *** Construction (source lines 18-148) *)

(** [parser.parse_args(["@" + config])] *)
Variable parse_args : string -> res Args.
(** [PhysNet(F=..., ...)]: the network object, as the function that
    [load_state_dict] followed by [eval] is on it. *)
Variable PhysNet : Args -> res (StateDict -> res PhysNetModel).
(** [torch.load(path)] *)
Variable torch_load : string -> res Checkpoint.

(** The local function [load_checkpoint] (lines 132-135): without a path
    it returns [None]. *)
Definition load_checkpoint (path : option string) : res (option Checkpoint) :=
  match path with
  | Some p => rbind (torch_load p) (fun c => rret (Some c))
  | None => rret None
  end.

(** [latest_ckpt['model_state_dict']] *)
Definition model_state_dict (ckpt : option Checkpoint) : res StateDict :=
  match ckpt with
  | None => rraise TypeError
  | Some c => match c !! "model_state_dict"%string with
              | Some sd => rret sd
              | None => rraise KeyError
              end
  end.

(** [cell.diagonal()] *)
Definition diagonal (c : vec3 * vec3 * vec3) : vec3 :=
  let '(r0, r1, r2) := c in (r0.1.1, r1.1.2, r2.2).

Definition __init__ (atoms : Atoms) (checkpoint : option string)
    (config : string) (charge : Qc) (lr_cut : option Qc) (hessian : bool)
    : res Calc :=
  rbind (parse_args config) (fun args =>
  let '(sr, lr, use_nl) :=
    match lr_cut with
    | None => (cutoff args, None, false)
    | Some c => (cutoff args, Some c, true)
    end in
  rbind (PhysNet args) (fun net =>
  rbind (get_indices atoms) (fun '(idx_i, idx_j) =>
  rbind (load_checkpoint checkpoint) (fun latest_ckpt =>
  rbind (model_state_dict latest_ckpt) (fun sd =>
  rbind (net sd) (fun loaded =>
  let self :=
    mkCalc sr lr use_nl (pbc atoms) (diagonal (cell atoms))
      (arg_device args) hessian (arg_DER_type args) checkpoint loaded
      (numbers atoms) (positions atoms) charge idx_i idx_j
      None None None None None None None ∅ [] in
  match calculate atoms self with
  | (inl e, _) => rraise e
  | (inr _, self) => rret (set_results ∅ (set_last_atoms None self))
  end)))))).

End Calculator.

(** ** Notions used to state the properties *)

(** The configurations evaluated so far, newest first. *)
Definition evaluations (s : Calc) : list Atoms :=
  omap (fun ev => match ev with Calculate a => Some a | _ => None end)
       (trace s).

(** The attributes that no method assigns after construction. *)
Definition settings (s : Calc)
    : Qc * option Qc * bool * bool * option string * PhysNetModel * list Z
      * Qc * list Z * list Z :=
  (_sr_cutoff s, _lr_cutoff s, _use_neighborlist s, hessian_active s,
   DER_type s, _model s, _Z s, _Q_tot s, _idx_i s, _idx_j s).

(** A method returns normally from a state. *)
Definition returns {A} (m : M A) (s : Calc) : Prop :=
  exists a, (m s).1 = inr a.

(** A fallible computation returned. *)
Definition is_Some_res {A} (r : res A) : Prop :=
  match r with inr _ => True | inl _ => False end.

(** The answer of the evidential entry point that [evidential_branch]
    calls: energy, lambda, alpha, beta, charges, forces and, when the
    Hessian is requested, the Hessian. *)
Definition evidential_call (self : Calc) (p : Pairs)
    : res (ndarray * ndarray * ndarray * ndarray * ndarray * ndarray
           * option ndarray) :=
  let '(idx_i, idx_j, offsets, sr_idx_i, sr_idx_j, sr_offsets) := p in
  if hessian_active self then
    rbind (energy_forces_and_hessian_evidential (model self)
             (Z_ self) (R_ self) idx_i idx_j (Q_tot self)
             offsets sr_idx_i sr_idx_j sr_offsets)
      (fun '(E, lambdas, alpha, beta, q, F, H) =>
         rret (E, lambdas, alpha, beta, q, F, Some H))
  else
    rbind (energy_forces_and_others_evidential (model self)
             (Z_ self) (R_ self) idx_i idx_j (Q_tot self)
             offsets sr_idx_i sr_idx_j sr_offsets)
      (fun '(E, lambdas, alpha, beta, q, F) =>
         rret (E, lambdas, alpha, beta, q, F, None)).

(** The packed prediction of the MD entry point that [md_branch] calls. *)
Definition md_call (self : Calc) (p : Pairs) : res ndarray :=
  let '(idx_i, idx_j, _, _, _, _) := p in
  if hessian_active self then
    rbind (energy_hessian_and_forces_md_evidencial (model self)
             (Z_ self) (R_ self) idx_i idx_j (Q_tot self))
      (fun '(pred, _, _, _) => rret pred)
  else
    rbind (energy_and_forces_md_evidencial (model self)
             (Z_ self) (R_ self) idx_i idx_j (Q_tot self))
      (fun '(pred, _, _) => rret pred).

Section Stages.

Variable neighbor_list :
    string -> Atoms -> option Qc -> res (list Z * list Z * list (Z * Z * Z)).

(** The pair lists of [find_neighbors], without the trace. *)
Definition neighbor_pairs (self : Calc) (atoms : Atoms) : res Pairs :=
  if use_neighborlist self || any_pbc atoms then
    rbind (neighbor_list "ijS" atoms (lr_cutoff self)) (fun '(i, j, S_) =>
    rbind (neighbor_list "ijS" atoms (Some (sr_cutoff self)))
      (fun '(si, sj, sS) =>
    rret (i, j, Some (Numpy.dot_cell S_ (cell atoms)),
          Some si, Some sj, Some (Numpy.dot_cell sS (cell atoms)))))
  else rret (idx_i self, idx_j self, None, None, None, None).

(** The pattern all accessors share: evaluate if required, then read. *)
Definition gated {A} (atoms : Atoms) (read : M A) : M A :=
  self <- get;;
  (if calculation_required self atoms then calculate neighbor_list atoms
   else ret tt);;
  read.

(** One call of a public method, as a change of the object. *)
Inductive call : Calc -> Calc -> Prop :=
  | call_calculate a s : call s (calculate neighbor_list a s).2
  | call_get_potential_energy a s :
      call s (get_potential_energy neighbor_list a s).2
  | call_get_potential_energy_and_uncertainty a s :
      call s (get_potential_energy_and_uncertainty neighbor_list a s).2
  | call_get_potential_energy_uncertainty_and_forces a s :
      call s (get_potential_energy_uncertainty_and_forces neighbor_list a s).2
  | call_get_forces a s : call s (get_forces neighbor_list a s).2
  | call_get_hessian a s : call s (get_hessian neighbor_list a s).2.

(** The object after any number of calls. *)
Definition later : Calc -> Calc -> Prop := rtc call.

End Stages.

(** The events an evaluation records after its own [Calculate]. *)
Definition search_or_evidential (ev : event) : Prop :=
  match ev with
  | NeighborList _ | ModelCall EFH_evidential | ModelCall EFO_evidential =>
      True
  | _ => False
  end.

(** Two configurations differ by value. *)
Definition differs (a b : Atoms) : Prop :=
  positions a <> positions b \/ numbers a <> numbers b
  \/ cell a <> cell b \/ pbc a <> pbc b.

(** A method that only reads. *)
Definition reads {A} (m : M A) : Prop := forall s, (m s).2 = s.

(** [idx] rotated left by [s]. *)
Definition rot (N s : nat) : list Z :=
  drop s (Torch.arange N) ++ take s (Torch.arange N).

(** The second list of [get_indices] for two or more atoms: the rotations
    by 1, ..., N-1, one after the other. *)
Definition idx_j_of (N : nat) : list Z :=
  mjoin (rot N <$> seq 1 (N - 1)%nat).

(** The first list: each index N-1 times, ascending. *)
Definition idx_i_of (N : nat) : list Z :=
  mjoin ((fun i => replicate (N - 1)%nat (Z.of_nat i)) <$> seq 0 N).

(** The cutoffs of the neighbour searches made so far, newest first. *)
Definition searches (s : Calc) : list (option Qc) :=
  omap (fun ev => match ev with NeighborList c => Some c | _ => None end)
       (trace s).

(** The entry points of the network called so far, newest first. *)
Definition model_calls (s : Calc) : list entry_point :=
  omap (fun ev => match ev with ModelCall e => Some e | _ => None end)
       (trace s).

(** What the accessors read: the attributes an evaluation assigns and the
    results dictionary. *)
Definition cached_values (s : Calc)
    : option ndarray * option ndarray * option ndarray
      * option (option ndarray) * option ndarray * option ndarray
      * gmap string pyval :=
  (_last_energy s, _last_charges s, _last_forces s, _last_hessian s,
   _sigma2 s, _var s, results s).

(** Every attribute an accessor reads is set, and the results hold an
    energy whenever a configuration is cached. *)
Definition ready (s : Calc) : Prop :=
  is_Some (_last_energy s) /\ is_Some (_last_forces s)
  /\ is_Some (_last_hessian s) /\ is_Some (_sigma2 s) /\ is_Some (_var s)
  /\ (is_Some (_last_atoms s) -> is_Some (results s !! "energy"%string)).

(** An accessor raised, and what it raised is the error of the evaluation
    it triggered. *)
Definition raised_by_evaluation {A}
    (neighbor_list : string -> Atoms -> option Qc ->
                     res (list Z * list Z * list (Z * Z * Z)))
    (self : Calc) (atoms : Atoms) (r : res A) : Prop :=
  calculation_required self atoms = true
  /\ exists e, (calculate neighbor_list atoms self).1 = inl e /\ r = inl e.

(** ** A concrete setting

    Two hydrogen atoms in an open box, a network that answers with fixed
    outputs, and a neighbour search that refuses a missing cutoff. *)

Definition qc (n : Z) : Qc := Qc_of_Z n.
Definition half : Qc := Q2Qc (1 # 2).
Definition origin : vec3 := (qc 0, qc 0, qc 0).
Definition box : vec3 * vec3 * vec3 :=
  ((qc 10, qc 0, qc 0), (qc 0, qc 10, qc 0), (qc 0, qc 0, qc 10)).

Definition h2 : Atoms :=
  mkAtoms [1; 1] [origin; (qc 1, qc 0, qc 0)] box (false, false, false).
Definition h2_stretched : Atoms :=
  mkAtoms [1; 1] [origin; (qc 2, qc 0, qc 0)] box (false, false, false).
Definition h2_periodic : Atoms :=
  mkAtoms [1; 1] [origin; (qc 1, qc 0, qc 0)] box (true, true, true).

Definition strict_search (quantities : string) (atoms : Atoms)
    (cutoff : option Qc) : res (list Z * list Z * list (Z * Z * Z)) :=
  match cutoff with
  | None => rraise TypeError
  | Some _ => rret ([0; 1], [1; 0], [(0, 0, 0); (0, 0, 0)])
  end.

(** A network with fixed outputs: energy 7, the given lambda, alpha, beta
    and packed MD prediction, no charges, zero forces. *)
Definition fixed_net (lambdas alpha beta pred : ndarray) : PhysNetModel :=
  let E := [Fin (qc 7)] in
  let F := [Fin (qc 0)] in
  mkModel
    (fun _ _ _ _ _ _ _ _ _ => rret (E, lambdas, alpha, beta, [], F, F))
    (fun _ _ _ _ _ _ _ _ _ => rret (E, lambdas, alpha, beta, [], F))
    (fun _ _ _ _ _ => rret (pred, [], F, F))
    (fun _ _ _ _ _ => rret (pred, [], F)).

Definition example_args (der : option string) : Args :=
  mkArgs 128 64 5 2 3 1 (qc 10) 1 1 None None None None "cpu" der.

(** A calculator for [h2] with nothing cached, without long-range cutoff
    and without Hessian. *)
Definition example_calc (der : option string) (net : PhysNetModel) : Calc :=
  mkCalc (qc 10) None false (false, false, false) (qc 10, qc 10, qc 10)
    "cpu" false der (Some "model.pt"%string) net
    [1; 1] [origin; (qc 1, qc 0, qc 0)] (qc 0) [0; 1] [1; 0]
    None None None None (Some None) None None ∅ [].

(** Construction of a calculator for [h2] from a checkpoint file. *)
Definition construct (der : option string) (net : PhysNetModel)
    (lr_cut : option Qc) (hessian : bool) : res Calc :=
  __init__ strict_search
    (fun _ => rret (example_args der))
    (fun _ => rret (fun _ => rret net))
    (fun _ => rret {[ "model_state_dict"%string := [] ]})
    h2 (Some "model.pt"%string) "config.txt" (qc 0) lr_cut hessian.

(** The object of a finished construction ([fallback] stands in for a
    construction that raised). *)
Definition built (fallback : Calc) (r : res Calc) : Calc :=
  match r with inr s => s | inl _ => fallback end.

(** The evidential parameters of the examples: lambda 2, alpha 3, beta 4;
    and the packed MD prediction with L00 = 1, L10 = 1/2, L11 = 1, nu = 5. *)
Definition net_234 : PhysNetModel :=
  fixed_net [Fin (qc 2)] [Fin (qc 3)] [Fin (qc 4)]
    [Fin (qc 0); Fin (qc 0); Fin (qc 1); Fin half; Fin (qc 1); Fin (qc 5)].



(** The positions of [h2] with other atomic numbers and another cell. *)
Definition h2_relabelled : Atoms :=
  mkAtoms [8; 8] [origin; (qc 1, qc 0, qc 0)] (origin, origin, origin)
    (false, false, false).

(** A network whose alpha and beta have shapes that do not broadcast. *)
Definition net_ragged : PhysNetModel :=
  fixed_net [Fin (qc 2)] [Fin (qc 3); Fin (qc 3)]
    [Fin (qc 4); Fin (qc 4); Fin (qc 4)] [Fin (qc 0); Fin (qc 0)].

(** The static all-pairs lists of two atoms. *)
Definition h2_pairs : Pairs := ([0; 1], [1; 0], None, None, None, None).

(** * Properties *)

(** ** Running a method: the equations of the monad *)

Lemma bind_modify {B} (f : Calc -> Calc) (k : unit -> M B) (s : Calc) :
  bind (modify f) k s = k tt (f s).
Proof. reflexivity. Qed.

Lemma bind_get {B} (k : Calc -> M B) (s : Calc) : bind get k s = k s s.
Proof. reflexivity. Qed.

Lemma bind_ret {A B} (a : A) (k : A -> M B) (s : Calc) :
  bind (ret a) k s = k a s.
Proof. reflexivity. Qed.

Lemma bind_lift {A B} (r : res A) (k : A -> M B) (s : Calc) :
  bind (lift r) k s = match r with inl e => (inl e, s) | inr a => k a s end.
Proof. unfold bind, lift. by destruct r. Qed.

Lemma bind_attr {A B} (f : Calc -> option A) (k : A -> M B) (s : Calc) :
  bind (attr f) k s =
  match f s with Some a => k a s | None => (inl AttributeError, s) end.
Proof. unfold bind, attr. by destruct (f s). Qed.

Lemma bind_assoc {A B C} (m : M A) (k : A -> M B) (h : B -> M C) (s : Calc) :
  bind (bind m k) h s = bind m (fun a => bind (k a) h) s.
Proof. unfold bind. destruct (m s) as [[e|a] s']; reflexivity. Qed.

Lemma bind_run {A B} (m : M A) (k : A -> M B) (s : Calc) :
  bind m k s =
  match m s with (inl e, s') => (inl e, s') | (inr a, s') => k a s' end.
Proof. reflexivity. Qed.

(** One step of running a method on a symbolic state. *)
Ltac run_step :=
  first
    [ rewrite bind_assoc
    | rewrite bind_get
    | rewrite bind_modify
    | rewrite bind_ret
    | rewrite bind_lift
    | rewrite bind_attr
    | progress cbn beta iota zeta
    | progress cbn [last_atoms last_energy last_forces last_hessian variance
                    sigma2 sr_cutoff lr_cutoff use_neighborlist model
                    checkpoint Z_ Q_tot R_ idx_i idx_j
                    _sr_cutoff _lr_cutoff _use_neighborlist self_pbc
                    self_cell device hessian_active DER_type _checkpoint
                    _model _Z _R _Q_tot _idx_i _idx_j _last_atoms
                    _last_energy _last_charges _last_forces _last_hessian
                    _sigma2 _var results trace
                    set_R set_last_atoms set_last_energy set_last_charges
                    set_last_forces set_last_hessian set_sigma2 set_var
                    set_results record rbind rret rraise] ].
Ltac run := repeat run_step.

Section StageEquations.

Variable neighbor_list :
  string -> Atoms -> option Qc -> res (list Z * list Z * list (Z * Z * Z)).

Lemma find_neighbors_eq (atoms : Atoms) (s : Calc) :
  find_neighbors neighbor_list atoms s =
  if use_neighborlist s || any_pbc atoms then
    match neighbor_list "ijS" atoms (lr_cutoff s) with
    | inl e => (inl e, record (NeighborList (lr_cutoff s)) s)
    | inr _ =>
        (neighbor_pairs neighbor_list s atoms,
         record (NeighborList (Some (sr_cutoff s)))
           (record (NeighborList (lr_cutoff s)) s))
    end
  else (neighbor_pairs neighbor_list s atoms, s).
Proof.
  unfold find_neighbors, neighbor_pairs. rewrite bind_get.
  destruct (use_neighborlist s || any_pbc atoms); [|reflexivity].
  rewrite bind_modify, bind_lift.
  destruct (neighbor_list "ijS" atoms (lr_cutoff s)) as [e|[[i j] S_]];
    [reflexivity|].
  rewrite bind_modify, bind_lift. simpl.
  destruct (neighbor_list "ijS" atoms (Some (sr_cutoff s)))
    as [e|[[si sj] sS]]; reflexivity.
Qed.

(** The state [evidential_branch] leaves, case by case. *)
Lemma evidential_branch_eq (p : Pairs) (s : Calc) :
  evidential_branch p s =
  let s0 :=
    record (ModelCall (if hessian_active s then EFH_evidential
                       else EFO_evidential)) s in
  match evidential_call s p with
  | inl e => (inl e, s0)
  | inr (E, lambdas, alpha, beta, q, F, H) =>
      let s1 := set_last_forces F (set_last_charges q (set_last_energy E s0)) in
      let s1 := match H with
                | Some h => set_last_hessian (Some h) s1
                | None => s1
                end in
      match Numpy.elementwise Np.div beta
              (Numpy.scalar_r Np.sub alpha (Fin 1%Qc)) with
      | inl e => (inl e, s1)
      | inr sig =>
          match Numpy.elementwise Np.mul
                  (Numpy.scalar_l Np.div (Fin 1%Qc) lambdas) sig with
          | inl e => (inl e, set_sigma2 sig s1)
          | inr v =>
              (inr tt,
               if hessian_active s then set_var v (set_sigma2 sig s1)
               else set_last_hessian None (set_var v (set_sigma2 sig s1)))
          end
      end
  end.
Proof.
  destruct p as [[[[[i j] o] si] sj] so].
  unfold evidential_branch, evidential_call. rewrite bind_get.
  destruct (hessian_active s) eqn:Hh; run.
  - destruct (energy_forces_and_hessian_evidential _ _ _ _ _ _ _ _ _ _)
      as [e|[[[[[[E l] a] b] q] F] H]]; run; [reflexivity|].
    destruct (Numpy.elementwise Np.div _ _) as [e|sig]; run; [reflexivity|].
    destruct (Numpy.elementwise Np.mul _ _) as [e|v]; run; reflexivity.
  - destruct (energy_forces_and_others_evidential _ _ _ _ _ _ _ _ _ _)
      as [e|[[[[[E l] a] b] q] F]]; run; [reflexivity|].
    destruct (Numpy.elementwise Np.div _ _) as [e|sig]; run; [reflexivity|].
    destruct (Numpy.elementwise Np.mul _ _) as [e|v]; run; reflexivity.
Qed.

Lemma store_results_eq (atoms : Atoms) (s : Calc) :
  store_results atoms s =
  match last_energy s with
  | None => (inl AttributeError, s)
  | Some e =>
      let s1 := set_results (<["energy"%string := PyArray e]> (results s)) s in
      match last_forces s with
      | None => (inl AttributeError, s1)
      | Some f =>
          let s2 :=
            set_results (<["forces"%string := PyArray f]> (results s1)) s1 in
          match last_hessian s with
          | None => (inl AttributeError, s2)
          | Some h =>
              (inr tt,
               set_last_atoms (Some atoms)
                 (set_results
                    (<["hessian"%string := of_hessian h]> (results s2)) s2))
          end
      end
  end.
Proof.
  unfold store_results, last_energy, last_forces, last_hessian.
  rewrite bind_attr.
  destruct (_last_energy s) as [e|]; [|reflexivity]. run.
  destruct (_last_forces s) as [f|]; [|reflexivity]. run.
  destruct (_last_hessian s) as [h|]; reflexivity.
Qed.

Lemma dispatch_simple_true (der : option string) : dispatch_simple der = true.
Proof. unfold dispatch_simple. apply orb_true_r. Qed.

Lemma calculate_eq (atoms : Atoms) (s : Calc) :
  calculate neighbor_list atoms s =
  match find_neighbors neighbor_list atoms (record (Calculate atoms) s) with
  | (inl e, s1) => (inl e, s1)
  | (inr p, s1) =>
      match evidential_branch p (set_R (positions atoms) s1) with
      | (inl e, s2) => (inl e, s2)
      | (inr _, s2) => store_results atoms s2
      end
  end.
Proof.
  unfold calculate. rewrite bind_modify. cbn beta. rewrite bind_run.
  destruct (find_neighbors _ _ _) as [[e|p] s1]; [reflexivity|].
  rewrite bind_modify, bind_get. cbn beta.
  rewrite dispatch_simple_true. apply bind_run.
Qed.

End StageEquations.

(** ** What every evaluation does *)

(** Projections of assigned attributes, in the goal and the hypotheses. *)
Ltac fields :=
  unfold last_atoms, last_energy, last_forces, last_hessian, variance,
    sigma2, sr_cutoff, lr_cutoff, use_neighborlist, model, checkpoint,
    Z_, Q_tot, R_, idx_i, idx_j in *;
  cbn [last_atoms last_energy last_forces last_hessian variance
       sigma2 sr_cutoff lr_cutoff use_neighborlist model
       checkpoint Z_ Q_tot R_ idx_i idx_j
       _sr_cutoff _lr_cutoff _use_neighborlist self_pbc
       self_cell device hessian_active DER_type _checkpoint
       _model _Z _R _Q_tot _idx_i _idx_j _last_atoms
       _last_energy _last_charges _last_forces _last_hessian
       _sigma2 _var results trace
       set_R set_last_atoms set_last_energy set_last_charges
       set_last_forces set_last_hessian set_sigma2 set_var
       set_results record fst snd] in *.

(** Case analysis on the innermost undecided test of the goal. *)
Ltac split_case :=
  match goal with
  | |- context [match ?x with _ => _ end] =>
      lazymatch x with
      | context [match _ with _ => _ end] => fail
      | _ => destruct x eqn:?
      end
  end.

(** All the ways [calculate] can go. *)
Ltac calc_cases :=
  rewrite calculate_eq, find_neighbors_eq; fields;
  repeat first
    [ progress fields
    | rewrite evidential_branch_eq
    | rewrite store_results_eq
    | progress cbn beta iota zeta
    | split_case ].

Section Evaluation.

Variable neighbor_list :
  string -> Atoms -> option Qc -> res (list Z * list Z * list (Z * Z * Z)).

Lemma calculate_settings (atoms : Atoms) (s : Calc) :
  settings (calculate neighbor_list atoms s).2 = settings s.
Proof. calc_cases; reflexivity. Qed.

Lemma calculate_trace_evidential (atoms : Atoms) (s : Calc) :
  exists evs,
    trace (calculate neighbor_list atoms s).2
    = evs ++ Calculate atoms :: trace s
    /\ Forall search_or_evidential evs
    /\ (is_Some_res (neighbor_pairs neighbor_list s atoms) ->
        ModelCall (if hessian_active s then EFH_evidential
                   else EFO_evidential) ∈ evs).
Proof.
  change (neighbor_pairs neighbor_list s atoms)
    with (neighbor_pairs neighbor_list (record (Calculate atoms) s) atoms).
  calc_cases.
  all: first
    [ by exists []
    | by eexists [_]; split; [reflexivity|];
         split; [repeat constructor|intros; set_solver]
    | by eexists [_; _]; split; [reflexivity|];
         split; [repeat constructor|intros; set_solver]
    | by eexists [_; _; _]; split; [reflexivity|];
         split; [repeat constructor|intros; set_solver]
    | eexists [_]; split; [reflexivity|];
      split; [repeat constructor|];
      match goal with
      | H1 : _ || _ = true, H2 : neighbor_list _ _ _ = inl _ |- _ =>
          unfold neighbor_pairs; fields; rewrite H1, H2; by intros []
      end ].
Qed.

Lemma calculate_trace (atoms : Atoms) (s : Calc) :
  exists evs,
    trace (calculate neighbor_list atoms s).2
    = evs ++ Calculate atoms :: trace s
    /\ Forall search_or_evidential evs.
Proof.
  destruct (calculate_trace_evidential atoms s) as (evs & ? & ? & _).
  by exists evs.
Qed.

Lemma calculate_evaluations (atoms : Atoms) (s : Calc) :
  evaluations (calculate neighbor_list atoms s).2 = atoms :: evaluations s.
Proof.
  destruct (calculate_trace atoms s) as (evs & Ht & Hq).
  unfold evaluations. rewrite Ht. clear Ht.
  induction Hq as [|ev evs Hev _ IH]; [reflexivity|].
  destruct ev as [a|c|[]]; try done; simpl; exact IH.
Qed.

Lemma calculate_caches (atoms : Atoms) (s : Calc) :
  returns (calculate neighbor_list atoms) s ->
  last_atoms (calculate neighbor_list atoms s).2 = Some atoms.
Proof.
  intros [u Hu]. revert Hu. calc_cases; intros; fields; try done.
Qed.

(** The cached configuration after an evaluation: the evaluated one when
    it returned, the old one when it raised. *)
Lemma calculate_cache (atoms : Atoms) (s : Calc) :
  last_atoms (calculate neighbor_list atoms s).2 =
  match (calculate neighbor_list atoms s).1 with
  | inr _ => Some atoms
  | inl _ => last_atoms s
  end.
Proof. calc_cases; reflexivity. Qed.

Lemma evidential_call_no_hessian (s : Calc) (p : Pairs) out (H : option ndarray) :
  hessian_active s = false -> evidential_call s p = inr (out, H) -> H = None.
Proof.
  intros Hh. destruct p as [[[[[i j] o] si] sj] so].
  unfold evidential_call. rewrite Hh.
  destruct (energy_forces_and_others_evidential _ _ _ _ _ _ _ _ _ _)
    as [e|[[[[[E l] a] b] q] F]]; unfold rbind, rret; [done|].
  by intros [= _ <-].
Qed.

Lemma evidential_call_hessian (s : Calc) (p : Pairs) out (H : option ndarray) :
  hessian_active s = true -> evidential_call s p = inr (out, H) ->
  is_Some H.
Proof.
  intros Hh. destruct p as [[[[[i j] o] si] sj] so].
  unfold evidential_call. rewrite Hh.
  destruct (energy_forces_and_hessian_evidential _ _ _ _ _ _ _ _ _ _)
    as [e|[[[[[[E l] a] b] q] F] H']]; unfold rbind, rret; [done|].
  intros [= _ <-]. by eexists.
Qed.




End Evaluation.

(** ** The accessors *)

Lemma reads_results_get key : reads (results_get key).
Proof. intros s. unfold results_get. by destruct (results s !! key). Qed.

Lemma reads_attr {A} (f : Calc -> option A) : reads (attr f).
Proof. intros s. unfold attr. by destruct (f s). Qed.

Lemma reads_ret {A} (a : A) : reads (ret a).
Proof. done. Qed.

Lemma reads_bind {A B} (m : M A) (k : A -> M B) :
  reads m -> (forall a, reads (k a)) -> reads (bind m k).
Proof.
  intros Hm Hk s. unfold bind. specialize (Hm s).
  destruct (m s) as [[e|a] s']; simpl in *; subst; [done|apply Hk].
Qed.

Create HintDb reads.
#[local] Hint Resolve reads_results_get reads_attr reads_ret reads_bind
  : reads.

Section Accessors.

Variable neighbor_list :
  string -> Atoms -> option Qc -> res (list Z * list Z * list (Z * Z * Z)).

Lemma gated_eq {A} (atoms : Atoms) (read : M A) (s : Calc) :
  gated neighbor_list atoms read s =
  if calculation_required s atoms then
    match calculate neighbor_list atoms s with
    | (inl e, s') => (inl e, s')
    | (inr _, s') => read s'
    end
  else read s.
Proof.
  unfold gated. rewrite bind_get. cbn beta.
  destruct (calculation_required s atoms); reflexivity.
Qed.

Lemma gated_state {A} (atoms : Atoms) (read : M A) (s : Calc) :
  reads read ->
  (gated neighbor_list atoms read s).2 =
  if calculation_required s atoms then (calculate neighbor_list atoms s).2
  else s.
Proof.
  intros Hr. rewrite gated_eq.
  destruct (calculation_required s atoms); [|apply Hr].
  destruct (calculate neighbor_list atoms s) as [[e|u] s']; [done|apply Hr].
Qed.

(** A call of a public method is an evaluation or leaves the object. *)
Lemma call_inv (s s' : Calc) :
  call neighbor_list s s' ->
  s' = s \/ exists a, s' = (calculate neighbor_list a s).2.
Proof.
  assert (Hg : forall A a (read : M A), reads read ->
            (gated neighbor_list a read s).2 = s
            \/ exists a', (gated neighbor_list a read s).2
                          = (calculate neighbor_list a' s).2).
  { intros A a read Hr. rewrite gated_state by done.
    destruct (calculation_required s a); eauto. }
  destruct 1; [by eauto|..];
    (apply Hg; eauto 10 with reads).
Qed.

Lemma later_settings (s s' : Calc) :
  later neighbor_list s s' -> settings s' = settings s.
Proof.
  induction 1 as [|s1 s2 s3 Hc _ IH]; [done|].
  rewrite IH. apply call_inv in Hc as [->|[a ->]]; [done|].
  apply calculate_settings.
Qed.


End Accessors.

(** ** The staleness check and the cache (C1) *)

Lemma atoms_ne_differs (a b : Atoms) : atoms_ne a b = true <-> differs a b.
Proof.
  unfold atoms_ne, differs. rewrite negb_true_iff. split.
  - intros H. repeat (apply andb_false_iff in H as [H|H]);
      apply bool_decide_eq_false in H; try tauto.
    left. congruence.
  - intros H.
    destruct (bool_decide (positions a = positions b)) eqn:Hp;
      [|by rewrite andb_false_r].
    destruct (bool_decide (numbers a = numbers b)) eqn:Hn;
      [|by rewrite andb_false_r].
    destruct (bool_decide (cell a = cell b)) eqn:Hc;
      [|by rewrite andb_false_r].
    destruct (bool_decide (pbc a = pbc b)) eqn:Hb;
      [|by rewrite andb_false_r].
    apply bool_decide_eq_true in Hp, Hn, Hc, Hb. tauto.
Qed.

Lemma atoms_ne_same (a : Atoms) : atoms_ne a a = false.
Proof.
  unfold atoms_ne. by rewrite !bool_decide_eq_true_2.
Qed.

Lemma calculation_required_spec (self : Calc) (atoms : Atoms) :
  calculation_required self atoms = true <->
  last_atoms self = None
  \/ exists cached, last_atoms self = Some cached /\ differs atoms cached.
Proof.
  unfold calculation_required. destruct (last_atoms self) as [c|].
  - rewrite atoms_ne_differs. split; [eauto|].
    intros [?|(c' & [= <-] & ?)]; done.
  - split; eauto.
Qed.

Section Cache.

Variable neighbor_list :
  string -> Atoms -> option Qc -> res (list Z * list Z * list (Z * Z * Z)).

Lemma gated_evaluations {A} (atoms : Atoms) (read : M A) (s : Calc) :
  reads read ->
  evaluations (gated neighbor_list atoms read s).2 =
  if calculation_required s atoms then atoms :: evaluations s
  else evaluations s.
Proof.
  intros Hr. rewrite gated_state by done.
  destruct (calculation_required s atoms); [|done].
  apply calculate_evaluations.
Qed.

Lemma gated_caches {A} (atoms : Atoms) (read : M A) (s : Calc) :
  reads read ->
  returns (gated neighbor_list atoms read) s ->
  calculation_required s atoms = true ->
  last_atoms (gated neighbor_list atoms read s).2 = Some atoms.
Proof.
  intros Hr [v Hv] Hreq. rewrite gated_state by done.
  rewrite gated_eq in Hv. rewrite Hreq in *.
  apply calculate_caches. unfold returns.
  destruct (calculate neighbor_list atoms s) as [[e|u] s']; [done|].
  by exists u.
Qed.

Lemma gated_cache_after_none {A} (atoms : Atoms) (read : M A) (s : Calc) :
  reads read ->
  last_atoms s = None ->
  last_atoms (gated neighbor_list atoms read s).2 = None
  \/ last_atoms (gated neighbor_list atoms read s).2 = Some atoms.
Proof.
  intros Hr Hnone. rewrite gated_state by done.
  unfold calculation_required. rewrite Hnone, calculate_cache.
  destruct (calculate neighbor_list atoms s).1; auto.
Qed.

End Cache.

(** C1: [calculation_required] is true exactly when nothing is cached or
    the queried configuration differs by value (positions, atomic numbers,
    cell or periodic flags) from the cached one; each of the five accessors
    runs [calculate] once when it is true and not at all when it is false;
    so on a calculator with an empty cache, the energy of [C1] and then of
    a different [C2] costs two evaluations, and the energy of [C1] twice
    costs one when the first call returns. *)
Theorem cache_gates_recomputation :
  (forall self atoms,
     calculation_required self atoms = true <->
     last_atoms self = None
     \/ exists cached, last_atoms self = Some cached /\ differs atoms cached)
  /\ (forall neighbor_list self atoms,
        let after := fun s' =>
          evaluations s' =
          if calculation_required self atoms then atoms :: evaluations self
          else evaluations self in
        after (get_potential_energy neighbor_list atoms self).2
        /\ after (get_potential_energy_and_uncertainty
                    neighbor_list atoms self).2
        /\ after (get_potential_energy_uncertainty_and_forces
                    neighbor_list atoms self).2
        /\ after (get_forces neighbor_list atoms self).2
        /\ after (get_hessian neighbor_list atoms self).2)
  /\ (forall neighbor_list self C1 C2,
        last_atoms self = None ->
        differs C2 C1 ->
        let s1 := (get_potential_energy neighbor_list C1 self).2 in
        evaluations (get_potential_energy neighbor_list C2 s1).2
        = C2 :: C1 :: evaluations self
        /\ (returns (get_potential_energy neighbor_list C1) self ->
            evaluations (get_potential_energy neighbor_list C1 s1).2
            = C1 :: evaluations self)).
Proof.
  split; [exact calculation_required_spec|]. split.
  - intros nl self atoms after. subst after. cbv beta.
    repeat split;
      apply (gated_evaluations nl atoms); eauto 10 with reads.
  - intros nl self C1 C2 Hnone Hdiff s1.
    assert (Hr : reads (results_get "energy")) by eauto with reads.
    assert (Hg : get_potential_energy nl
                 = fun a => gated nl a (results_get "energy")) by done.
    subst s1. rewrite Hg in *. cbv beta in *.
    set (s1 := (gated nl C1 (results_get "energy") self).2).
    assert (H1 : evaluations s1 = C1 :: evaluations self).
    { subst s1. rewrite gated_evaluations by done.
      unfold calculation_required. by rewrite Hnone. }
    rewrite !gated_evaluations by done. rewrite H1. split.
    + unfold calculation_required.
      destruct (gated_cache_after_none nl C1 (results_get "energy") self
                  Hr Hnone) as [Hc|Hc]; fold s1 in Hc; rewrite Hc; [done|].
      apply atoms_ne_differs in Hdiff. by rewrite Hdiff.
    + intros Hret.
      assert (Hcached : last_atoms s1 = Some C1).
      { subst s1. apply (gated_caches nl C1); [done..|].
        unfold calculation_required. by rewrite Hnone. }
      unfold calculation_required. by rewrite Hcached, atoms_ne_same.
Qed.

Lemma cache_gates_recomputation_witness :
  evaluations
    (get_potential_energy strict_search h2_stretched
       (get_potential_energy strict_search h2
          (example_calc None net_234)).2).2
  = [h2_stretched; h2] ++ evaluations (example_calc None net_234)
  /\ evaluations
       (get_potential_energy strict_search h2
          (get_potential_energy strict_search h2
             (example_calc None net_234)).2).2
     = [h2] ++ evaluations (example_calc None net_234).
Proof.
  destruct cache_gates_recomputation as (_ & _ & H).
  destruct (H strict_search (example_calc None net_234) h2 h2_stretched)
    as [H2 H1].
  - reflexivity.
  - left. vm_compute. discriminate.
  - split; [exact H2|]. apply H1. eexists. vm_compute. reflexivity.
Defined.

(** ** The dispatch on the mode tag (C2, C3) *)

(** C2: the condition that selects the 'simple'/'Lipschitz' branch is true
    for every tag, so [calculate] is the pipeline with that branch, and
    the only calls an evaluation makes are neighbour searches and calls of
    the two evidential entry points: never one of the 'MD' entry points.
    When the pair lists are found, the evidential entry point is called. *)
Theorem md_branch_unreachable :
  (forall der, dispatch_simple der = true)
  /\ (forall neighbor_list atoms self,
        calculate neighbor_list atoms self =
        (modify (record (Calculate atoms));;
         p <- find_neighbors neighbor_list atoms;;
         modify (set_R (positions atoms));;
         evidential_branch p;;
         store_results atoms) self)
  /\ (forall neighbor_list atoms self,
        exists evs,
          trace (calculate neighbor_list atoms self).2
          = evs ++ Calculate atoms :: trace self
          /\ (ModelCall EHF_md_evidencial ∉ evs)
          /\ (ModelCall EF_md_evidencial ∉ evs)
          /\ (is_Some_res (neighbor_pairs neighbor_list self atoms) ->
              ModelCall (if hessian_active self then EFH_evidential
                         else EFO_evidential) ∈ evs)).
Proof.
  split; [exact dispatch_simple_true|]. split.
  - intros nl atoms self. unfold calculate.
    rewrite !bind_modify. cbn beta. rewrite !bind_run.
    destruct (find_neighbors _ _ _) as [[e|p] s1]; [reflexivity|].
    rewrite !bind_modify, bind_get. cbn beta.
    by rewrite dispatch_simple_true.
  - intros nl atoms self.
    destruct (calculate_trace_evidential nl atoms self)
      as (evs & Ht & Hq & Hev).
    exists evs. split; [done|].
    split; [|split; [|exact Hev]].
    + intros Hin. eapply Forall_forall in Hq; [|exact Hin]. done.
    + intros Hin. eapply Forall_forall in Hq; [|exact Hin]. done.
Qed.

Lemma md_branch_unreachable_witness :
  exists evs,
    trace (calculate strict_search h2
             (example_calc (Some "MD"%string) net_234)).2
    = evs ++ [Calculate h2]
    /\ ModelCall EFO_evidential ∈ evs
    /\ (ModelCall EF_md_evidencial ∉ evs).
Proof.
  destruct (proj2 (proj2 md_branch_unreachable) strict_search h2
              (example_calc (Some "MD"%string) net_234))
    as (evs & Ht & _ & Hmd & Hev).
  exists evs. split; [exact Ht|]. split; [|exact Hmd].
  apply Hev. exact I.
Defined.


(** ** Arithmetic of the uncertainty (C5, C7) *)

Lemma sign_inv (b : Qc) : Np.sign (/ b)%Qc = Np.sign b.
Proof.
  unfold Np.sign, Qccompare.
  assert (Hinv : (this (/ b)%Qc == / this b)%Q) by apply Qred_correct.
  change (this (Q2Qc 0)) with 0%Q.
  rewrite (Qcompare_comp _ _ Hinv 0%Q 0%Q (Qeq_refl _)).
  destruct (Qcompare_spec (this b) 0) as [H|H|H].
  - apply Qeq_alt. rewrite H. reflexivity.
  - apply Qlt_alt.
    destruct (this b) as [[|n|n] d]; try done.
  - apply Qgt_alt. by apply Qinv_lt_0_compat.
Qed.


Lemma sign_0 : Np.sign 0%Qc = Eq.
Proof. reflexivity. Qed.

Lemma sign_1 : Np.sign 1%Qc = Gt.
Proof. reflexivity. Qed.

(** [(1/l) * x] is [x / l], also at the special values. *)
Lemma mul_inv_div (l x : npfloat) :
  Np.mul (Np.div (Fin 1%Qc) l) x = Np.div x l.
Proof.
  destruct l as [b| | |]; [|by destruct x as [a| | |]; cbn;
                              rewrite ?Qcmult_0_l, ?sign_0..].
  cbn [Np.div]. destruct (Np.sign b) eqn:Hb.
  - rewrite sign_1. cbn. destruct x as [a| | |]; cbn; try done.
    all: by rewrite ?Hb.
  - destruct x as [a| | |]; cbn [Np.mul Np.div]; rewrite ?Hb; try done.
    + f_equal. unfold Qcdiv. ring.
    + unfold Qcdiv. by rewrite Qcmult_1_l, sign_inv, Hb.
    + unfold Qcdiv. by rewrite Qcmult_1_l, sign_inv, Hb.
  - destruct x as [a| | |]; cbn [Np.mul Np.div]; rewrite ?Hb; try done.
    + f_equal. unfold Qcdiv. ring.
    + unfold Qcdiv. by rewrite Qcmult_1_l, sign_inv, Hb.
    + unfold Qcdiv. by rewrite Qcmult_1_l, sign_inv, Hb.
Qed.

Lemma elementwise_same_length op (a b : ndarray) :
  length a = length b ->
  Numpy.elementwise op a b = inr (zip_with op a b).
Proof.
  intros H. unfold Numpy.elementwise.
  by rewrite (proj2 (Nat.eqb_eq _ _) H).
Qed.

Lemma zip_with_mul_inv (lam sig : ndarray) :
  zip_with Np.mul (Numpy.scalar_l Np.div (Fin 1%Qc) lam) sig
  = zip_with Np.div sig lam.
Proof.
  unfold Numpy.scalar_l. revert sig.
  induction lam as [|l lam IH]; intros [|x sig]; try done.
  cbn [fmap list_fmap zip_with]. f_equal; [apply mul_inv_div|apply IH].
Qed.

Section Uncertainty.

Variable neighbor_list :
  string -> Atoms -> option Qc -> res (list Z * list Z * list (Z * Z * Z)).

(** A successful evaluation, step by step: the pair lists are found, the
    evidential entry point answers with parameters of one shape. *)
Lemma calculate_evidential (self : Calc) (atoms : Atoms) (p : Pairs)
    (E lambdas alpha beta q F : ndarray) (H : option ndarray) :
  neighbor_pairs neighbor_list self atoms = inr p ->
  evidential_call (set_R (positions atoms) self) p
  = inr (E, lambdas, alpha, beta, q, F, H) ->
  length lambdas = length alpha ->
  length alpha = length beta ->
  let sig := zip_with Np.div beta (Numpy.scalar_r Np.sub alpha (Fin 1%Qc)) in
  let r := calculate neighbor_list atoms self in
  r.1 = inr tt
  /\ sigma2 r.2 = Some sig
  /\ variance r.2 = Some (zip_with Np.div sig lambdas)
  /\ last_atoms r.2 = Some atoms
  /\ last_energy r.2 = Some E
  /\ last_forces r.2 = Some F.
Proof.
  intros Hp Hcall Hl1 Hl2 sig r. subst r.
  assert (Hsig : Numpy.elementwise Np.div beta
                   (Numpy.scalar_r Np.sub alpha (Fin 1%Qc)) = inr sig).
  { apply elementwise_same_length.
    unfold Numpy.scalar_r. rewrite length_fmap. congruence. }
  assert (Hvar : Numpy.elementwise Np.mul
                   (Numpy.scalar_l Np.div (Fin 1%Qc) lambdas) sig
                 = inr (zip_with Np.div sig lambdas)).
  { rewrite elementwise_same_length, zip_with_mul_inv; [done|].
    subst sig. unfold Numpy.scalar_l, Numpy.scalar_r.
    rewrite length_zip_with, !length_fmap. lia. }
  assert (HH : if hessian_active self then is_Some H else H = None).
  { destruct (hessian_active self) eqn:Hh.
    - eapply evidential_call_hessian; [|exact Hcall]. exact Hh.
    - eapply evidential_call_no_hessian; [|exact Hcall]. exact Hh. }
  rewrite calculate_eq, find_neighbors_eq. fields.
  change (neighbor_pairs neighbor_list (record _ self) atoms)
    with (neighbor_pairs neighbor_list self atoms).
  rewrite Hp.
  destruct (_use_neighborlist self || any_pbc atoms) eqn:Hb.
  - destruct (neighbor_list "ijS" atoms (_lr_cutoff self)) eqn:Hlr.
    { unfold neighbor_pairs in Hp. fields. by rewrite Hb, Hlr in Hp. }
    rewrite evidential_branch_eq.
    change (evidential_call (set_R _ _) p)
      with (evidential_call (set_R (positions atoms) self) p).
    rewrite Hcall. cbn zeta. rewrite Hsig, Hvar.
    rewrite store_results_eq.
    fields. destruct (hessian_active self);
      [destruct HH as [h ->]|subst H]; fields; done.
  - rewrite evidential_branch_eq.
    change (evidential_call (set_R _ _) p)
      with (evidential_call (set_R (positions atoms) self) p).
    rewrite Hcall. cbn zeta. rewrite Hsig, Hvar.
    rewrite store_results_eq.
    fields. destruct (hessian_active self);
      [destruct HH as [h ->]|subst H]; fields; done.
Qed.

End Uncertainty.





(** C3, as the code has it: an unrecognized mode tag raises no dispatch
    error.  Whenever the pair lists are found and the evidential entry
    point answers with parameters of one shape, [calculate] returns
    normally and caches the queried configuration. *)
Theorem unrecognized_tag_no_dispatch_error
    (neighbor_list : string -> Atoms -> option Qc ->
                     res (list Z * list Z * list (Z * Z * Z)))
    (self : Calc) (atoms : Atoms) (p : Pairs)
    (E lambdas alpha beta q F : ndarray) (H : option ndarray) :
  DER_type self <> Some "simple"%string ->
  DER_type self <> Some "Lipz"%string ->
  DER_type self <> Some "MD"%string ->
  neighbor_pairs neighbor_list self atoms = inr p ->
  evidential_call (set_R (positions atoms) self) p
  = inr (E, lambdas, alpha, beta, q, F, H) ->
  length lambdas = length alpha ->
  length alpha = length beta ->
  (calculate neighbor_list atoms self).1 = inr tt
  /\ last_atoms (calculate neighbor_list atoms self).2 = Some atoms.
Proof.
  intros _ _ _ Hp Hcall Hl1 Hl2.
  destruct (calculate_evidential neighbor_list self atoms p
              E lambdas alpha beta q F H Hp Hcall Hl1 Hl2)
    as (Hr & _ & _ & Hc & _).
  by split.
Qed.

Lemma unrecognized_tag_no_dispatch_error_witness :
  (calculate strict_search h2 (example_calc (Some "foo"%string) net_234)).1
  = inr tt
  /\ last_atoms
       (calculate strict_search h2
          (example_calc (Some "foo"%string) net_234)).2
     = Some h2.
Proof.
  apply (unrecognized_tag_no_dispatch_error strict_search
           (example_calc (Some "foo"%string) net_234) h2 h2_pairs
           [Fin (qc 7)] [Fin (qc 2)] [Fin (qc 3)] [Fin (qc 4)] []
           [Fin (qc 0)] None).
  - discriminate.
  - discriminate.
  - discriminate.
  - reflexivity.
  - reflexivity.
  - reflexivity.
  - reflexivity.
Defined.

(** C3 as stated fails: with the tag ['foo'], which is neither
    'simple'/'Lipz' nor 'MD', [calculate] returns normally. *)
Lemma unrecognized_tag_evaluates :
  DER_type (example_calc (Some "foo"%string) net_234) = Some "foo"%string
  /\ (calculate strict_search h2
        (example_calc (Some "foo"%string) net_234)).1 = inr tt.
Proof. split; [reflexivity|]. vm_compute. reflexivity. Qed.



Section MDBranch.


End MDBranch.




(** ** The 'MD' branch (C6) *)



(** ** Construction (C8) *)

Section Construction.

Variable neighbor_list :
  string -> Atoms -> option Qc -> res (list Z * list Z * list (Z * Z * Z)).
Variable parse_args : string -> res Args.
Variable PhysNet : Args -> res (StateDict -> res PhysNetModel).
Variable torch_load : string -> res Checkpoint.

(** What [__init__] returns is what its one evaluation left, with the
    cache and the results emptied. *)
Lemma init_inv (atoms : Atoms) (ckpt : option string) (config : string)
    (charge : Qc) (lr_cut : option Qc) (hessian : bool) (self : Calc) :
  __init__ neighbor_list parse_args PhysNet torch_load
    atoms ckpt config charge lr_cut hessian = inr self ->
  exists s0,
    trace s0 = [] /\ hessian_active s0 = hessian
    /\ lr_cutoff s0 = lr_cut
    /\ use_neighborlist s0 = bool_decide (is_Some lr_cut)
    /\ returns (calculate neighbor_list atoms) s0
    /\ self = set_results ∅ (set_last_atoms None
                (calculate neighbor_list atoms s0).2).
Proof.
  unfold __init__, rbind.
  destruct (parse_args config) as [e|args]; [done|].
  destruct (PhysNet args) as [e|net]; [by destruct lr_cut|].
  destruct (get_indices atoms) as [e|[i j]]; [by destruct lr_cut|].
  destruct (load_checkpoint torch_load ckpt) as [e|latest];
    [by destruct lr_cut|].
  destruct (model_state_dict latest) as [e|sd]; [by destruct lr_cut|].
  destruct (net sd) as [e|loaded]; [by destruct lr_cut|].
  destruct lr_cut as [c|]; cbn beta iota zeta.
  all: match goal with
       | |- context [calculate _ ?a ?s] =>
           intros Hself; exists s;
           destruct (calculate neighbor_list a s) as [[e|u] s'] eqn:Hc;
           [done|]
       end.
  all: injection Hself as <-; repeat split; try done.
  all: unfold returns; rewrite Hc; by eexists.
Qed.

End Construction.

(** C8: a construction that completes has evaluated the initial
    configuration exactly once and left no cached configuration, so
    [calculation_required] is true for whatever is queried first. *)
Theorem construction_warm_up
    (neighbor_list : string -> Atoms -> option Qc ->
                     res (list Z * list Z * list (Z * Z * Z)))
    (parse_args : string -> res Args)
    (PhysNet : Args -> res (StateDict -> res PhysNetModel))
    (torch_load : string -> res Checkpoint)
    (atoms : Atoms) (ckpt : option string) (config : string)
    (charge : Qc) (lr_cut : option Qc) (hessian : bool) (self : Calc) :
  __init__ neighbor_list parse_args PhysNet torch_load
    atoms ckpt config charge lr_cut hessian = inr self ->
  evaluations self = [atoms]
  /\ last_atoms self = None
  /\ forall queried, calculation_required self queried = true.
Proof.
  intros Hinit. apply init_inv in Hinit
    as (s0 & Ht & _ & _ & _ & _ & ->).
  split; [|by split].
  change (evaluations (set_results _ (set_last_atoms _ ?s)))
    with (evaluations s).
  rewrite calculate_evaluations. unfold evaluations. by rewrite Ht.
Qed.

Lemma construction_warm_up_witness :
  evaluations (built (example_calc None net_234)
                 (construct None net_234 None false)) = [h2]
  /\ last_atoms (built (example_calc None net_234)
                   (construct None net_234 None false)) = None
  /\ forall queried,
       calculation_required
         (built (example_calc None net_234)
            (construct None net_234 None false)) queried = true.
Proof.
  apply (construction_warm_up strict_search
           (fun _ => rret (example_args None))
           (fun _ => rret (fun _ => rret net_234))
           (fun _ => rret {[ "model_state_dict"%string := [] ]})
           h2 (Some "model.pt"%string) "config.txt"%string (qc 0)
           None false).
  vm_compute. reflexivity.
Defined.

(** ** Without Hessian, without long-range cutoff (C9, C10) *)



(** C10: on a calculator constructed without long-range cutoff the stored
    cutoff is [None], whatever has been called since; for a configuration
    with a periodic flag set, the first thing [calculate] does is the
    neighbour search with that [None] cutoff, and when the search refuses
    it the evaluation raises its error: no other search and no call of the
    network follow. *)
Theorem missing_cutoff_reaches_search
    (neighbor_list : string -> Atoms -> option Qc ->
                     res (list Z * list Z * list (Z * Z * Z)))
    (parse_args : string -> res Args)
    (PhysNet : Args -> res (StateDict -> res PhysNetModel))
    (torch_load : string -> res Checkpoint)
    (atoms : Atoms) (ckpt : option string) (config : string)
    (charge : Qc) (hessian : bool) (constructed self : Calc) :
  __init__ neighbor_list parse_args PhysNet torch_load
    atoms ckpt config charge None hessian = inr constructed ->
  later neighbor_list constructed self ->
  lr_cutoff self = None
  /\ forall queried,
       any_pbc queried = true ->
       (exists evs,
          trace (calculate neighbor_list queried self).2
          = evs ++ NeighborList None :: Calculate queried :: trace self)
       /\ (forall e,
             neighbor_list "ijS" queried None = inl e ->
             calculate neighbor_list queried self
             = (inl e,
                record (NeighborList None)
                  (record (Calculate queried) self))).
Proof.
  intros Hinit Hlater.
  apply init_inv in Hinit as (s0 & _ & _ & Hlr & _ & _ & ->).
  assert (Hcut : lr_cutoff self = None).
  { apply later_settings in Hlater. unfold settings in Hlater.
    injection Hlater as _ Hs _ _ _ _ _ _ _ _. unfold lr_cutoff.
    rewrite Hs.
    pose proof (calculate_settings neighbor_list atoms s0) as Hc.
    unfold settings in Hc. injection Hc as _ Hc _ _ _ _ _ _ _ _.
    change (_lr_cutoff (set_results _ (set_last_atoms _ ?s)))
      with (_lr_cutoff s). unfold lr_cutoff in Hlr. congruence. }
  split; [done|]. intros queried Hpbc. unfold lr_cutoff in Hcut. split.
  - calc_cases; rewrite ?Hcut in *; rewrite ?Hpbc, ?orb_true_r in *;
      try done.
    all: first [ by exists [] | by eexists [_] | by eexists [_; _]
               | by eexists [_; _; _] ].
  - intros e He. rewrite calculate_eq, find_neighbors_eq. fields.
    by rewrite Hpbc, orb_true_r, Hcut, He.
Qed.

Lemma missing_cutoff_reaches_search_witness :
  lr_cutoff (built (example_calc None net_234)
               (construct None net_234 None false)) = None
  /\ (calculate strict_search h2_periodic
        (built (example_calc None net_234)
           (construct None net_234 None false))).1 = inl TypeError.
Proof.
  destruct (missing_cutoff_reaches_search strict_search
              (fun _ => rret (example_args None))
              (fun _ => rret (fun _ => rret net_234))
              (fun _ => rret {[ "model_state_dict"%string := [] ]})
              h2 (Some "model.pt"%string) "config.txt"%string (qc 0)
              false
              (built (example_calc None net_234)
                 (construct None net_234 None false))
              (built (example_calc None net_234)
                 (construct None net_234 None false)))
    as (H1 & H2).
  - vm_compute. reflexivity.
  - apply rtc_refl.
  - split; [exact H1|].
    destruct (H2 h2_periodic eq_refl) as (_ & H).
    by rewrite (H TypeError eq_refl).
Defined.

(** ** The static all-pairs lists (C4) *)

Section AllPairs.

Local Open Scope nat_scope.

Lemma arange_length N : length (Torch.arange N) = N.
Proof. unfold Torch.arange. by rewrite length_fmap, length_seq. Qed.

Lemma arange_lookup N k : k < N -> Torch.arange N !! k = Some (Z.of_nat k).
Proof.
  intros H. unfold Torch.arange.
  by rewrite list_lookup_fmap, lookup_seq_lt.
Qed.

Lemma rot_length N s : length (rot N s) = N.
Proof.
  unfold rot. rewrite length_app, length_drop, length_take, arange_length.
  lia.
Qed.

Lemma rot_lookup N s t :
  s < N -> t < N ->
  rot N s !! t = Some (Z.of_nat (if decide (t + s < N) then t + s
                                 else t + s - N)).
Proof.
  intros Hs Ht. unfold rot. case_decide.
  - rewrite lookup_app_l by (rewrite length_drop, arange_length; lia).
    rewrite lookup_drop, arange_lookup by lia. f_equal. lia.
  - rewrite lookup_app_r by (rewrite length_drop, arange_length; lia).
    rewrite length_drop, arange_length.
    rewrite lookup_take_lt by lia. rewrite arange_lookup by lia.
    f_equal. lia.
Qed.

Lemma roll_rot N s :
  0 < s < N -> Torch.roll (Torch.arange N) (- Z.of_nat s) = rot N s.
Proof.
  intros H. unfold Torch.roll, rot. rewrite arange_length.
  destruct (Z.eqb_spec (Z.of_nat N) 0) as [?|_]; [lia|].
  rewrite Z.opp_involutive, Z.mod_small by lia.
  by rewrite Nat2Z.id.
Qed.

Lemma fold_left_append {A B} (f : B -> list A) (l : list B) (acc : list A) :
  fold_left (fun acc x => acc ++ f x) l acc = acc ++ mjoin (f <$> l).
Proof.
  revert acc. induction l as [|x l IH]; intros acc; csimpl.
  - by rewrite app_nil_r.
  - by rewrite IH, (assoc_L (++)).
Qed.

Lemma concat_mjoin {A} (ls : list (list A)) : concat ls = mjoin ls.
Proof. induction ls as [|l ls IH]; csimpl; [done|by rewrite IH]. Qed.

Lemma repeat_perm {A} (m : nat) (l : list A) :
  mjoin (replicate m l) ≡ₚ mjoin ((fun x => replicate m x) <$> l).
Proof.
  induction m as [|m IH]; csimpl.
  - induction l as [|x l IHl]; csimpl; [done|exact IHl].
  - rewrite IH. clear IH. induction l as [|x l IHl]; csimpl; [done|].
    constructor. rewrite <-IHl.
    rewrite !(assoc_L (++)). apply Permutation_app_tail.
    apply Permutation_app_comm.
Qed.

Lemma Sorted_replicate_app (m : nat) (x : Z) (l : list Z) :
  Sorted Z.le l -> Forall (Z.le x) l -> Sorted Z.le (replicate m x ++ l).
Proof.
  intros Hl Hx. induction m as [|m IH]; [done|].
  cbn [replicate app]. constructor; [done|].
  destruct m as [|m]; cbn [replicate app].
  - destruct Hx; constructor. done.
  - constructor. reflexivity.
Qed.

Lemma idx_i_of_sorted N : Sorted Z.le (idx_i_of N).
Proof.
  unfold idx_i_of.
  assert (H : forall n a, Sorted Z.le
            (mjoin ((fun i => replicate (N - 1) (Z.of_nat i)) <$> seq a n))
          /\ Forall (Z.le (Z.of_nat a))
            (mjoin ((fun i => replicate (N - 1) (Z.of_nat i)) <$> seq a n))).
  { induction n as [|n IH]; intros a; csimpl.
    - split; constructor.
    - destruct (IH (S a)) as [IH1 IH2].
      assert (IH3 : Forall (Z.le (Z.of_nat a))
                (mjoin ((fun i => replicate (N - 1) (Z.of_nat i))
                        <$> seq (S a) n))).
      { eapply Forall_impl; [exact IH2|]. intros; simpl in *; lia. }
      split.
      + by apply Sorted_replicate_app.
      + apply Forall_app. split; [|done].
        apply Forall_replicate. reflexivity. }
  apply H.
Qed.

Lemma sort_repeat N :
  Torch.sort (concat (replicate (N - 1) (Torch.arange N))) = idx_i_of N.
Proof.
  unfold Torch.sort. apply (Sorted_unique Z.le).
  - apply Sorted_merge_sort. apply _.
  - apply idx_i_of_sorted.
  - rewrite merge_sort_Permutation, concat_mjoin, repeat_perm.
    unfold idx_i_of, Torch.arange. by rewrite <-list_fmap_compose.
Qed.

Lemma get_indices_eq (atoms : Atoms) :
  2 <= atoms_len atoms ->
  get_indices atoms
  = inr (idx_i_of (atoms_len atoms), idx_j_of (atoms_len atoms)).
Proof.
  intros HN. unfold get_indices. set (N := atoms_len atoms) in *.
  unfold Torch.repeat, Torch.arange2.
  destruct (Z.ltb_spec (Z.of_nat N - 1) 0) as [?|_]; [lia|].
  cbn [rbind rret].
  destruct (Z.leb_spec 2 (Z.of_nat N)) as [_|?]; [|lia].
  destruct (Z.ltb_spec (Z.of_nat N) 2) as [?|_]; [lia|].
  cbn [rbind rret]. f_equal. f_equal.
  - replace (Z.to_nat (Z.of_nat N - 1)) with (N - 1) by lia.
    apply sort_repeat.
  - rewrite fold_left_append. unfold idx_j_of.
    replace (N - 1) with (S (N - 2)) by lia. csimpl.
    f_equal.
    + apply (roll_rot N 1). lia.
    + f_equal. rewrite <-list_fmap_compose.
      replace (Z.to_nat (Z.of_nat N - 2)) with (N - 2) by lia.
      apply list_eq. intros k. rewrite !list_lookup_fmap.
      destruct (decide (k < N - 2)) as [Hk|Hk].
      * rewrite !lookup_seq_lt by done. simpl. f_equal.
        rewrite <-(roll_rot N (S (S k))) by lia. f_equal. lia.
      * by rewrite !lookup_seq_ge by lia.
Qed.

End AllPairs.

Section AllPairsLookup.

Local Open Scope nat_scope.

(** Position [i * (N-1) + r] holds the pair of [i] with the [r]-th index
    other than [i]. *)
Lemma idx_lookup (N i r : nat) :
  i < N -> r < N - 1 ->
  idx_i_of N !! (i * (N - 1) + r) = Some (Z.of_nat i)
  /\ idx_j_of N !! (i * (N - 1) + r)
     = Some (Z.of_nat (if decide (r < i) then r else r + 1)).
Proof.
  intros Hi Hr. split.
  - unfold idx_i_of.
    apply (join_lookup_Some_same_length' (N - 1)); [|done|].
    + apply Forall_fmap, Forall_forall. intros x _. simpl.
      apply length_replicate.
    + exists (replicate (N - 1) (Z.of_nat i)). split.
      * by rewrite list_lookup_fmap, lookup_seq_lt.
      * by apply lookup_replicate_2.
  - unfold idx_j_of. case_decide as Hlt.
    + replace (i * (N - 1) + r) with ((i - 1) * N + (N - i + r)) by nia.
      apply (join_lookup_Some_same_length' N); [|lia|].
      * apply Forall_fmap, Forall_forall. intros x _. apply rot_length.
      * exists (rot N i). split.
        -- rewrite list_lookup_fmap, lookup_seq_lt by lia.
           simpl. f_equal. f_equal. lia.
        -- rewrite rot_lookup by lia. case_decide; [lia|].
           f_equal. f_equal. lia.
    + replace (i * (N - 1) + r) with (i * N + (r - i)) by nia.
      apply (join_lookup_Some_same_length' N); [|lia|].
      * apply Forall_fmap, Forall_forall. intros x _. apply rot_length.
      * exists (rot N (i + 1)). split.
        -- rewrite list_lookup_fmap, lookup_seq_lt by lia.
           simpl. f_equal. f_equal. lia.
        -- rewrite rot_lookup by lia. case_decide; [|lia].
           f_equal. f_equal. lia.
Qed.

Lemma idx_i_of_length N : length (idx_i_of N) = N * (N - 1).
Proof.
  unfold idx_i_of. rewrite length_join.
  rewrite (sum_list_fmap_same (N - 1)).
  - by rewrite length_fmap, length_seq.
  - apply Forall_fmap, Forall_forall. intros x _. apply length_replicate.
Qed.

Lemma idx_j_of_length N : length (idx_j_of N) = N * (N - 1).
Proof.
  unfold idx_j_of. rewrite length_join.
  rewrite (sum_list_fmap_same N).
  - rewrite length_fmap, length_seq. lia.
  - apply Forall_fmap, Forall_forall. intros x _. apply rot_length.
Qed.

End AllPairsLookup.

Section AllPairsSpec.

Local Open Scope nat_scope.

Lemma position_split (N k : nat) :
  k < N * (N - 1) ->
  exists i r, i < N /\ r < N - 1 /\ k = i * (N - 1) + r.
Proof.
  intros Hk. assert (HN : N - 1 <> 0) by lia.
  exists (k / (N - 1)), (k mod (N - 1)). split; [|split].
  - apply Nat.Div0.div_lt_upper_bound. lia.
  - by apply Nat.mod_upper_bound.
  - rewrite (Nat.div_mod_eq k (N - 1)) at 1. lia.
Qed.

(** What sits at a position of the two lists. *)
Lemma idx_at (N k : nat) (i j : Z) :
  idx_i_of N !! k = Some i -> idx_j_of N !! k = Some j ->
  exists i0 r, i0 < N /\ r < N - 1 /\ k = i0 * (N - 1) + r
               /\ i = Z.of_nat i0
               /\ j = Z.of_nat (if decide (r < i0) then r else r + 1).
Proof.
  intros Hi Hj.
  assert (Hk : k < N * (N - 1)).
  { rewrite <-idx_i_of_length. by eapply lookup_lt_Some. }
  destruct (position_split N k Hk) as (i0 & r & Hi0 & Hr & ->).
  destruct (idx_lookup N i0 r Hi0 Hr) as [Hi' Hj'].
  exists i0, r. repeat split; try done; congruence.
Qed.

End AllPairsSpec.

(** X1: for two or more atoms, [get_indices] returns two lists of length
    N * (N - 1) that pair every atom index with every other index exactly
    once, and never an index with itself. *)
Theorem get_indices_all_pairs (atoms : Atoms) :
  (2 <= atoms_len atoms)%nat ->
  let N := Z.of_nat (atoms_len atoms) in
  exists idx_i idx_j,
    get_indices atoms = inr (idx_i, idx_j)
    /\ Z.of_nat (length idx_i) = N * (N - 1)
    /\ Z.of_nat (length idx_j) = N * (N - 1)
    /\ (forall k i j,
          idx_i !! k = Some i -> idx_j !! k = Some j ->
          i <> j /\ 0 <= i < N /\ 0 <= j < N)
    /\ (forall i j,
          0 <= i < N -> 0 <= j < N -> i <> j ->
          exists k, idx_i !! k = Some i /\ idx_j !! k = Some j)
    /\ (forall k k' i j,
          idx_i !! k = Some i -> idx_j !! k = Some j ->
          idx_i !! k' = Some i -> idx_j !! k' = Some j -> k = k').
Proof.
  intros HN N. exists (idx_i_of (atoms_len atoms)), (idx_j_of (atoms_len atoms)).
  split; [by apply get_indices_eq|].
  rewrite idx_i_of_length, idx_j_of_length. subst N.
  set (n := atoms_len atoms) in *.
  split; [nia|]. split; [nia|]. split; [|split].
  - intros k i j Hi Hj.
    destruct (idx_at n k i j Hi Hj) as (i0 & r & ? & ? & _ & -> & ->).
    case_decide; lia.
  - intros i j Hi Hj Hne.
    set (i0 := Z.to_nat i). set (j0 := Z.to_nat j).
    set (r := if decide (j0 < i0)%nat then j0 else (j0 - 1)%nat).
    assert (Hr : (r < n - 1)%nat) by (subst r; case_decide; lia).
    destruct (idx_lookup n i0 r ltac:(lia) Hr) as [Hi' Hj'].
    exists (i0 * (n - 1) + r)%nat. split.
    + rewrite Hi'. f_equal. lia.
    + rewrite Hj'. f_equal. subst r. repeat case_decide; lia.
  - intros k k' i j Hi Hj Hi' Hj'.
    destruct (idx_at n k i j Hi Hj) as (i0 & r & ? & ? & -> & -> & ->).
    destruct (idx_at n k' _ _ Hi' Hj')
      as (i1 & r' & ? & ? & -> & Hii & Hjj).
    assert (i1 = i0) as -> by lia.
    assert (r' = r) as -> by (repeat case_decide; lia).
    done.
Qed.

Lemma get_indices_all_pairs_witness :
  exists idx_i idx_j,
    get_indices h2 = inr (idx_i, idx_j)
    /\ Z.of_nat (length idx_i) = 2 * (2 - 1)
    /\ Z.of_nat (length idx_j) = 2 * (2 - 1)
    /\ (forall k i j,
          idx_i !! k = Some i -> idx_j !! k = Some j ->
          i <> j /\ 0 <= i < 2 /\ 0 <= j < 2)
    /\ (forall i j,
          0 <= i < 2 -> 0 <= j < 2 -> i <> j ->
          exists k, idx_i !! k = Some i /\ idx_j !! k = Some j)
    /\ (forall k k' i j,
          idx_i !! k = Some i -> idx_j !! k = Some j ->
          idx_i !! k' = Some i -> idx_j !! k' = Some j -> k = k').
Proof.
  apply (get_indices_all_pairs h2). vm_compute. lia.
Defined.

(** C4 fails for a single atom: the first list is empty but the second
    holds the index 0, so the two lists do not have one length. *)
Theorem get_indices_single_atom
    (Zs : list Z) (position : vec3) (c : vec3 * vec3 * vec3)
    (periodic : bool * bool * bool) :
  get_indices (mkAtoms Zs [position] c periodic) = inr ([], [0]).
Proof. reflexivity. Qed.

(** * Further properties of the calculator *)

(** ** Which calls an evaluation makes *)

(** With the Hessian flag, the entry point answers with a Hessian. *)
Ltac with_hessian :=
  match goal with
  | H : evidential_call _ _ = inr (_, None) |- _ =>
      apply evidential_call_hessian in H;
      [by destruct H | fields; assumption]
  end.

Section Calls.

Variable neighbor_list :
  string -> Atoms -> option Qc -> res (list Z * list Z * list (Z * Z * Z)).

(** X2: an evaluation searches for neighbours exactly when the calculator
    was given a long-range cutoff or the queried configuration has a
    periodic flag: first with the long-range cutoff and, when that search
    returns, once more with the short-range cutoff.  Otherwise it makes no
    search. *)
Theorem calculate_searches (atoms : Atoms) (self : Calc) :
  searches (calculate neighbor_list atoms self).2 =
  (if use_neighborlist self || any_pbc atoms then
     match neighbor_list "ijS" atoms (lr_cutoff self) with
     | inl _ => [lr_cutoff self]
     | inr _ => [Some (sr_cutoff self); lr_cutoff self]
     end
   else []) ++ searches self.
Proof. calc_cases; reflexivity. Qed.

(** X3: an evaluation calls the network once when the pair lists are
    found, through the entry point that the Hessian flag selects, and not
    at all when a neighbour search raises. *)
Theorem calculate_model_calls (atoms : Atoms) (self : Calc) :
  model_calls (calculate neighbor_list atoms self).2 =
  match neighbor_pairs neighbor_list self atoms with
  | inr _ => [if hessian_active self then EFH_evidential
              else EFO_evidential]
  | inl _ => []
  end ++ model_calls self.
Proof.
  change (neighbor_pairs neighbor_list self atoms)
    with (neighbor_pairs neighbor_list (record (Calculate atoms) self) atoms).
  calc_cases; try reflexivity.
  all: match goal with
       | H1 : _ || _ = true, H2 : neighbor_list _ _ _ = inl _,
         H3 : neighbor_pairs _ _ _ = inr _ |- _ =>
           unfold neighbor_pairs in H3; fields; by rewrite H1, H2 in H3
       end.
Qed.

(** What an evaluation that raises leaves untouched. *)
Lemma calculate_raises_keeps (atoms : Atoms) (self : Calc) (e : exn) :
  (calculate neighbor_list atoms self).1 = inl e ->
  last_atoms (calculate neighbor_list atoms self).2 = last_atoms self
  /\ results (calculate neighbor_list atoms self).2 = results self.
Proof.
  calc_cases; intros; fields; try done; with_hessian.
Qed.

(** X4: an evaluation that raises leaves the cached configuration and the
    results dictionary as they were. *)
Theorem calculate_failure_keeps_results (atoms : Atoms) (self : Calc)
    (e : exn) :
  (calculate neighbor_list atoms self).1 = inl e ->
  last_atoms (calculate neighbor_list atoms self).2 = last_atoms self
  /\ results (calculate neighbor_list atoms self).2 = results self.
Proof. apply calculate_raises_keeps. Qed.

End Calls.

(** ** What a successful evaluation caches and the accessors return *)

Section Values.

Variable neighbor_list :
  string -> Atoms -> option Qc -> res (list Z * list Z * list (Z * Z * Z)).



(** X6: an exception keeps the assignments made before it.  When the
    network has answered but the shapes of alpha and beta do not combine,
    the evaluation raises with the energy and forces of the failed query
    already stored, while the cached configuration, the results and the
    uncertainty are the old ones: on the configuration still cached,
    [get_potential_energy] returns the old energy and
    [get_potential_energy_and_uncertainty] the new one. *)
Theorem failed_evaluation_keeps_assignments (self : Calc) (atoms : Atoms)
    (p : Pairs) (E lambdas alpha beta q F : ndarray) (H : option ndarray)
    (e : exn) :
  neighbor_pairs neighbor_list self atoms = inr p ->
  evidential_call (set_R (positions atoms) self) p
  = inr (E, lambdas, alpha, beta, q, F, H) ->
  Numpy.elementwise Np.div beta (Numpy.scalar_r Np.sub alpha (Fin 1%Qc))
  = inl e ->
  let after := (calculate neighbor_list atoms self).2 in
  (calculate neighbor_list atoms self).1 = inl e
  /\ last_energy after = Some E
  /\ last_forces after = Some F
  /\ sigma2 after = sigma2 self
  /\ variance after = variance self
  /\ last_atoms after = last_atoms self
  /\ results after = results self
  /\ (forall cached old v s2,
        last_atoms self = Some cached ->
        results self !! "energy"%string = Some old ->
        variance self = Some v -> sigma2 self = Some s2 ->
        (get_potential_energy neighbor_list cached after).1 = inr old
        /\ (get_potential_energy_and_uncertainty
              neighbor_list cached after).1 = inr (E, v, s2)).
Proof.
  intros Hp Hcall Hdiv after.
  assert (Hstate :
    (calculate neighbor_list atoms self).1 = inl e
    /\ last_energy after = Some E
    /\ last_forces after = Some F
    /\ sigma2 after = sigma2 self
    /\ variance after = variance self
    /\ last_atoms after = last_atoms self
    /\ results after = results self).
  { subst after.
    rewrite calculate_eq, find_neighbors_eq. fields.
    change (neighbor_pairs neighbor_list (record _ self) atoms)
      with (neighbor_pairs neighbor_list self atoms).
    rewrite Hp.
    destruct (_use_neighborlist self || any_pbc atoms) eqn:Hb.
    - destruct (neighbor_list "ijS" atoms (_lr_cutoff self)) eqn:Hlr.
      { unfold neighbor_pairs in Hp. fields. by rewrite Hb, Hlr in Hp. }
      rewrite evidential_branch_eq.
      change (evidential_call (set_R _ _) p)
        with (evidential_call (set_R (positions atoms) self) p).
      rewrite Hcall. cbn zeta. rewrite Hdiv.
      by destruct H; fields.
    - rewrite evidential_branch_eq.
      change (evidential_call (set_R _ _) p)
        with (evidential_call (set_R (positions atoms) self) p).
      rewrite Hcall. cbn zeta. rewrite Hdiv.
      by destruct H; fields. }
  destruct Hstate as (Hr & He & HF & Hs & Hv & Hla & Hres).
  repeat (split; [done|]).
  intros cached old v s2 Hc Hold Hvar Hsig.
  unfold get_potential_energy, get_potential_energy_and_uncertainty.
  rewrite !bind_get. cbn beta.
  unfold calculation_required. rewrite Hla, Hc, atoms_ne_same.
  unfold results_get, bind, attr, ret.
  repeat first [ rewrite Hres | rewrite Hold | rewrite He | rewrite Hv
               | rewrite Hs | rewrite Hvar | rewrite Hsig
               | progress cbn beta iota ].
  done.
Qed.

(** X7: without long-range cutoff and periodic flags an evaluation reads
    nothing of the queried configuration but its positions: the atomic
    numbers, the charge and the pair lists handed to the network are those
    fixed at construction, so two configurations with the same positions
    give the same outcome and the same cached values. *)
Theorem calculate_reads_positions_only (self : Calc) (a1 a2 : Atoms) :
  use_neighborlist self = false ->
  any_pbc a1 = false -> any_pbc a2 = false ->
  positions a1 = positions a2 ->
  (calculate neighbor_list a1 self).1 = (calculate neighbor_list a2 self).1
  /\ cached_values (calculate neighbor_list a1 self).2
     = cached_values (calculate neighbor_list a2 self).2.
Proof.
  intros Hnl Hp1 Hp2 Hpos. unfold cached_values.
  rewrite !calculate_eq, !find_neighbors_eq. fields.
  rewrite Hnl, Hp1, Hp2. cbn [orb].
  unfold neighbor_pairs. fields. rewrite Hnl, Hp1, Hp2. cbn [orb rret].
  rewrite !evidential_branch_eq. fields. rewrite Hpos.
  set (p := (_idx_i self, _idx_j self, None, None, None, None)).
  change (evidential_call (set_R (positions a2)
                             (record (Calculate a1) self)) p)
    with (evidential_call (set_R (positions a2) self) p).
  change (evidential_call (set_R (positions a2)
                             (record (Calculate a2) self)) p)
    with (evidential_call (set_R (positions a2) self) p).
  repeat first
    [ progress fields
    | rewrite store_results_eq
    | progress cbn beta iota zeta
    | split_case ];
    done.
Qed.

End Values.

(** ** Accessors on a constructed calculator *)

Section Ready.

Variable neighbor_list :
  string -> Atoms -> option Qc -> res (list Z * list Z * list (Z * Z * Z)).

(** An evaluation that returns has assigned every attribute. *)
Lemma calculate_ready_after (atoms : Atoms) (s : Calc) :
  returns (calculate neighbor_list atoms) s ->
  ready (calculate neighbor_list atoms s).2.
Proof.
  intros [u Hu]. revert Hu. unfold ready.
  calc_cases; intros; fields; try done.
  all: repeat split; try by eexists.
  all: intros _; by rewrite lookup_insert_ne, lookup_insert_ne,
                      lookup_insert_eq.
Qed.

(** No evaluation unsets what was set. *)
Lemma calculate_ready (atoms : Atoms) (s : Calc) :
  ready s -> ready (calculate neighbor_list atoms s).2.
Proof.
  intros Hs.
  destruct (calculate neighbor_list atoms s).1 as [e|u] eqn:Hr.
  - destruct (calculate_raises_keeps neighbor_list atoms s e Hr)
      as [Hla Hres].
    destruct Hs as (H1 & H2 & H3 & H4 & H5 & H6).
    unfold ready. unfold last_atoms in Hla. rewrite Hla, Hres.
    clear Hla Hres. revert Hr.
    calc_cases; intros; fields; repeat split; try done; by eexists.
  - apply calculate_ready_after. by exists u.
Qed.

Lemma later_ready (s s' : Calc) :
  ready s -> later neighbor_list s s' -> ready s'.
Proof.
  intros Hs Hl. induction Hl as [|s1 s2 s3 Hc _ IH]; [done|].
  apply IH. apply call_inv in Hc as [->|[a ->]]; [done|].
  by apply calculate_ready.
Qed.

(** On a ready calculator a gated read returns, or raises what its
    evaluation raised. *)
Lemma gated_ready {A} (atoms : Atoms) (read : M A) (s : Calc) :
  (forall s', ready s' -> is_Some (_last_atoms s') -> returns read s') ->
  ready s ->
  returns (gated neighbor_list atoms read) s
  \/ raised_by_evaluation neighbor_list s atoms
       (gated neighbor_list atoms read s).1.
Proof.
  intros Hread Hs. unfold returns, raised_by_evaluation.
  rewrite gated_eq.
  destruct (calculation_required s atoms) eqn:Hreq.
  - pose proof (calculate_ready atoms s Hs) as Hs'.
    pose proof (calculate_cache neighbor_list atoms s) as Hc.
    destruct (calculate neighbor_list atoms s) as [[e|u] s'].
    + right. split; [done|]. by exists e.
    + left. apply Hread; [done|]. simpl in Hc.
      unfold last_atoms in Hc. rewrite Hc. by eexists.
  - left. apply Hread; [done|].
    unfold calculation_required, last_atoms in Hreq.
    destruct (_last_atoms s); [by eexists|done].
Qed.

(** An accessor called again with the configuration it has just answered
    for answers the same and leaves the object as it is. *)
Lemma gated_idempotent {A} (atoms : Atoms) (read : M A) (s s1 : Calc)
    (v : A) :
  reads read ->
  gated neighbor_list atoms read s = (inr v, s1) ->
  gated neighbor_list atoms read s1 = (inr v, s1).
Proof.
  intros Hr Hg.
  assert (Hstate : (gated neighbor_list atoms read s).2 = s1)
    by (by rewrite Hg).
  assert (Hhit : calculation_required s1 atoms = false).
  { destruct (calculation_required s atoms) eqn:Hreq.
    - assert (Hret : returns (gated neighbor_list atoms read) s).
      { exists v. by rewrite Hg. }
      unfold calculation_required. rewrite <-Hstate.
      rewrite (gated_caches neighbor_list atoms read s Hr Hret Hreq).
      apply atoms_ne_same.
    - rewrite gated_state, Hreq in Hstate by done. by subst s1. }
  rewrite gated_eq, Hhit.
  rewrite gated_eq in Hg.
  destruct (calculation_required s atoms).
  - destruct (calculate neighbor_list atoms s) as [[e|u] s'] eqn:Hc;
      [done|].
    pose proof (Hr s') as Hs'. rewrite Hg in Hs'. simpl in Hs'.
    rewrite Hs'. rewrite Hs' in Hg. exact Hg.
  - pose proof (Hr s) as Hs'. rewrite Hg in Hs'. simpl in Hs'.
    rewrite Hs'. rewrite Hs' in Hg. exact Hg.
Qed.

(** X9: every accessor is idempotent: called again with the configuration
    it has just returned a value for, it returns the same value and leaves
    the calculator unchanged (no second evaluation). *)
Theorem accessors_idempotent (atoms : Atoms) :
  (forall s s1 v,
     get_potential_energy neighbor_list atoms s = (inr v, s1) ->
     get_potential_energy neighbor_list atoms s1 = (inr v, s1))
  /\ (forall s s1 v,
        get_potential_energy_and_uncertainty neighbor_list atoms s
        = (inr v, s1) ->
        get_potential_energy_and_uncertainty neighbor_list atoms s1
        = (inr v, s1))
  /\ (forall s s1 v,
        get_potential_energy_uncertainty_and_forces neighbor_list atoms s
        = (inr v, s1) ->
        get_potential_energy_uncertainty_and_forces neighbor_list atoms s1
        = (inr v, s1))
  /\ (forall s s1 v,
        get_forces neighbor_list atoms s = (inr v, s1) ->
        get_forces neighbor_list atoms s1 = (inr v, s1))
  /\ (forall s s1 v,
        get_hessian neighbor_list atoms s = (inr v, s1) ->
        get_hessian neighbor_list atoms s1 = (inr v, s1)).
Proof.
  repeat split; intros s s1 v;
    apply (gated_idempotent atoms); eauto 10 with reads.
Qed.

End Ready.

(** ** Construction, continued *)

Section ConstructionMore.

Variable neighbor_list :
  string -> Atoms -> option Qc -> res (list Z * list Z * list (Z * Z * Z)).
Variable parse_args : string -> res Args.
Variable PhysNet : Args -> res (StateDict -> res PhysNetModel).
Variable torch_load : string -> res Checkpoint.

(** The attributes of a constructed calculator. *)
Lemma init_state (atoms : Atoms) (ckpt : option string) (config : string)
    (charge : Qc) (lr_cut : option Qc) (hessian : bool) (self : Calc) :
  __init__ neighbor_list parse_args PhysNet torch_load
    atoms ckpt config charge lr_cut hessian = inr self ->
  exists args i j,
    parse_args config = inr args
    /\ get_indices atoms = inr (i, j)
    /\ sr_cutoff self = cutoff args
    /\ lr_cutoff self = lr_cut
    /\ use_neighborlist self = bool_decide (is_Some lr_cut)
    /\ hessian_active self = hessian
    /\ DER_type self = arg_DER_type args
    /\ Z_ self = numbers atoms
    /\ Q_tot self = charge
    /\ idx_i self = i /\ idx_j self = j
    /\ results self = ∅
    /\ ready self.
Proof.
  unfold __init__, rbind.
  destruct (parse_args config) as [e|args]; [done|].
  destruct (PhysNet args) as [e|net]; [by destruct lr_cut|].
  destruct (get_indices atoms) as [e|[i j]]; [by destruct lr_cut|].
  destruct (load_checkpoint torch_load ckpt) as [e|latest];
    [by destruct lr_cut|].
  destruct (model_state_dict latest) as [e|sd]; [by destruct lr_cut|].
  destruct (net sd) as [e|loaded]; [by destruct lr_cut|].
  intros Hself. exists args, i, j. split; [done|]. split; [done|].
  destruct lr_cut as [c|]; cbn beta iota zeta in Hself.
  all: match type of Hself with
       | context [calculate _ ?a ?s] =>
           pose proof (calculate_settings neighbor_list a s) as Hset;
           pose proof (calculate_ready_after neighbor_list a s) as Hready;
           unfold returns in Hready;
           destruct (calculate neighbor_list a s) as [[e|u] s'];
           [done|]
       end.
  all: injection Hself as <-; cbn [fst snd] in Hset, Hready.
  all: unfold settings in Hset; fields;
       injection Hset as H1 H2 H3 H4 H5 H6 H7 H8 H9 H10.
  all: repeat split; try done.
  all: destruct Hready as (? & ? & ? & ? & ? & ?); [by eexists|].
  all: fields; try done.
  all: by intros [? [=]].
Qed.

End ConstructionMore.

(** X8: on a constructed calculator, whatever has been called since, an
    accessor raises nothing of its own: it returns, or it raises the error
    of the evaluation it triggered (a cache hit always returns). *)
Theorem accessors_raise_only_with_evaluation
    (neighbor_list : string -> Atoms -> option Qc ->
                     res (list Z * list Z * list (Z * Z * Z)))
    (parse_args : string -> res Args)
    (PhysNet : Args -> res (StateDict -> res PhysNetModel))
    (torch_load : string -> res Checkpoint)
    (atoms : Atoms) (ckpt : option string) (config : string)
    (charge : Qc) (lr_cut : option Qc) (hessian : bool)
    (constructed self : Calc) (queried : Atoms) :
  __init__ neighbor_list parse_args PhysNet torch_load
    atoms ckpt config charge lr_cut hessian = inr constructed ->
  later neighbor_list constructed self ->
  (returns (get_potential_energy neighbor_list queried) self
   \/ raised_by_evaluation neighbor_list self queried
        (get_potential_energy neighbor_list queried self).1)
  /\ (returns (get_potential_energy_and_uncertainty
                 neighbor_list queried) self
      \/ raised_by_evaluation neighbor_list self queried
           (get_potential_energy_and_uncertainty
              neighbor_list queried self).1)
  /\ (returns (get_potential_energy_uncertainty_and_forces
                 neighbor_list queried) self
      \/ raised_by_evaluation neighbor_list self queried
           (get_potential_energy_uncertainty_and_forces
              neighbor_list queried self).1)
  /\ (returns (get_forces neighbor_list queried) self
      \/ raised_by_evaluation neighbor_list self queried
           (get_forces neighbor_list queried self).1)
  /\ (returns (get_hessian neighbor_list queried) self
      \/ raised_by_evaluation neighbor_list self queried
           (get_hessian neighbor_list queried self).1).
Proof.
  intros Hinit Hlater.
  apply init_state in Hinit as (args & i & j & Hinit).
  do 12 (destruct Hinit as [_ Hinit]).
  pose proof (later_ready neighbor_list _ _ Hinit Hlater) as Hready.
  repeat split.
  all: apply (gated_ready neighbor_list queried); [|done].
  all: intros s' (He & Hf & Hh & Hs & Hv & Hres) Hla.
  all: destruct He as [e He], Hf as [f Hf], Hh as [h Hh], Hs as [sg Hs],
         Hv as [v Hv], (Hres Hla) as [en Hen].
  all: unfold returns, results_get, bind, attr, ret, last_energy,
         last_forces, last_hessian, variance, sigma2.
  all: repeat first [ rewrite He | rewrite Hf | rewrite Hh | rewrite Hs
                    | rewrite Hv | rewrite Hen | progress cbn beta iota ].
  all: by eexists.
Qed.

Lemma accessors_raise_only_with_evaluation_witness :
  returns (get_forces strict_search h2_periodic)
    (built (example_calc None net_234) (construct None net_234 None false))
  \/ raised_by_evaluation strict_search
       (built (example_calc None net_234)
          (construct None net_234 None false))
       h2_periodic
       (get_forces strict_search h2_periodic
          (built (example_calc None net_234)
             (construct None net_234 None false))).1.
Proof.
  destruct (accessors_raise_only_with_evaluation strict_search
              (fun _ => rret (example_args None))
              (fun _ => rret (fun _ => rret net_234))
              (fun _ => rret {[ "model_state_dict"%string := [] ]})
              h2 (Some "model.pt"%string) "config.txt"%string (qc 0)
              None false
              (built (example_calc None net_234)
                 (construct None net_234 None false))
              (built (example_calc None net_234)
                 (construct None net_234 None false))
              h2_periodic)
    as (_ & _ & _ & H & _).
  - vm_compute. reflexivity.
  - apply rtc_refl.
  - exact H.
Defined.

(** X10: what construction fixes stays fixed.  On a constructed calculator,
    whatever has been called since, the cutoffs, the search flag (set
    exactly when a long-range cutoff was given), the Hessian flag, the mode
    tag, the charge, and the atomic numbers and static pair lists of the
    construction configuration are the attributes every evaluation uses;
    and construction itself hands back an empty results dictionary. *)
Theorem constructed_settings_persist
    (neighbor_list : string -> Atoms -> option Qc ->
                     res (list Z * list Z * list (Z * Z * Z)))
    (parse_args : string -> res Args)
    (PhysNet : Args -> res (StateDict -> res PhysNetModel))
    (torch_load : string -> res Checkpoint)
    (atoms : Atoms) (ckpt : option string) (config : string)
    (charge : Qc) (lr_cut : option Qc) (hessian : bool)
    (constructed self : Calc) :
  __init__ neighbor_list parse_args PhysNet torch_load
    atoms ckpt config charge lr_cut hessian = inr constructed ->
  later neighbor_list constructed self ->
  exists args,
    parse_args config = inr args
    /\ sr_cutoff self = cutoff args
    /\ lr_cutoff self = lr_cut
    /\ use_neighborlist self = bool_decide (is_Some lr_cut)
    /\ hessian_active self = hessian
    /\ DER_type self = arg_DER_type args
    /\ Z_ self = numbers atoms
    /\ Q_tot self = charge
    /\ get_indices atoms = inr (idx_i self, idx_j self)
    /\ results constructed = ∅.
Proof.
  intros Hinit Hlater.
  apply init_state in Hinit
    as (args & i & j & Hp & Hg & H1 & H2 & H3 & H4 & H5 & H6 & H7 & H8
        & H9 & Hres & _).
  apply later_settings in Hlater. unfold settings in Hlater.
  injection Hlater as E1 E2 E3 E4 E5 E6 E7 E8 E9 E10.
  exists args. unfold sr_cutoff, lr_cutoff, use_neighborlist, Z_, Q_tot,
    idx_i, idx_j in *.
  rewrite E1, E2, E3, E4, E5, E7, E8, E9, E10, H8, H9.
  repeat split; done.
Qed.

Lemma constructed_settings_persist_witness :
  exists args,
    rret (example_args (Some "simple"%string)) = inr args
    /\ sr_cutoff
         (get_forces strict_search h2_stretched
            (built (example_calc None net_234)
               (construct (Some "simple"%string) net_234
                  (Some (qc 12)) true))).2 = cutoff args
    /\ lr_cutoff
         (get_forces strict_search h2_stretched
            (built (example_calc None net_234)
               (construct (Some "simple"%string) net_234
                  (Some (qc 12)) true))).2 = Some (qc 12)
    /\ use_neighborlist
         (get_forces strict_search h2_stretched
            (built (example_calc None net_234)
               (construct (Some "simple"%string) net_234
                  (Some (qc 12)) true))).2
       = bool_decide (is_Some (Some (qc 12)))
    /\ hessian_active
         (get_forces strict_search h2_stretched
            (built (example_calc None net_234)
               (construct (Some "simple"%string) net_234
                  (Some (qc 12)) true))).2 = true
    /\ DER_type
         (get_forces strict_search h2_stretched
            (built (example_calc None net_234)
               (construct (Some "simple"%string) net_234
                  (Some (qc 12)) true))).2 = arg_DER_type args
    /\ Z_ (get_forces strict_search h2_stretched
             (built (example_calc None net_234)
                (construct (Some "simple"%string) net_234
                   (Some (qc 12)) true))).2 = numbers h2
    /\ Q_tot
         (get_forces strict_search h2_stretched
            (built (example_calc None net_234)
               (construct (Some "simple"%string) net_234
                  (Some (qc 12)) true))).2 = qc 0
    /\ get_indices h2
       = inr (idx_i
                (get_forces strict_search h2_stretched
                   (built (example_calc None net_234)
                      (construct (Some "simple"%string) net_234
                         (Some (qc 12)) true))).2,
              idx_j
                (get_forces strict_search h2_stretched
                   (built (example_calc None net_234)
                      (construct (Some "simple"%string) net_234
                         (Some (qc 12)) true))).2)
    /\ results (built (example_calc None net_234)
                  (construct (Some "simple"%string) net_234
                     (Some (qc 12)) true)) = ∅.
Proof.
  apply (constructed_settings_persist strict_search
           (fun _ => rret (example_args (Some "simple"%string)))
           (fun _ => rret (fun _ => rret net_234))
           (fun _ => rret {[ "model_state_dict"%string := [] ]})
           h2 (Some "model.pt"%string) "config.txt"%string (qc 0)
           (Some (qc 12)) true).
  - vm_compute. reflexivity.
  - eapply rtc_l; [apply call_get_forces|apply rtc_refl].
Defined.

(** X11: what construction raises for a bad checkpoint.  When the config
    file parses, the network is built and the pair lists are made: without
    a checkpoint path construction raises [TypeError] (the local
    [load_checkpoint] returns [None], which is then subscripted); an error
    of [torch.load] is passed on; and a checkpoint without the entry
    ['model_state_dict'] raises [KeyError]. *)
Theorem construction_checkpoint_errors
    (neighbor_list : string -> Atoms -> option Qc ->
                     res (list Z * list Z * list (Z * Z * Z)))
    (parse_args : string -> res Args)
    (PhysNet : Args -> res (StateDict -> res PhysNetModel))
    (torch_load : string -> res Checkpoint)
    (atoms : Atoms) (config : string) (charge : Qc) (lr_cut : option Qc)
    (hessian : bool) (args : Args) net (ij : list Z * list Z) :
  parse_args config = inr args ->
  PhysNet args = inr net ->
  get_indices atoms = inr ij ->
  __init__ neighbor_list parse_args PhysNet torch_load
    atoms None config charge lr_cut hessian = inl TypeError
  /\ (forall path e,
        torch_load path = inl e ->
        __init__ neighbor_list parse_args PhysNet torch_load
          atoms (Some path) config charge lr_cut hessian = inl e)
  /\ (forall path ckpt,
        torch_load path = inr ckpt ->
        ckpt !! "model_state_dict"%string = None ->
        __init__ neighbor_list parse_args PhysNet torch_load
          atoms (Some path) config charge lr_cut hessian = inl KeyError).
Proof.
  intros Hp Hn Hg. unfold __init__, rbind. rewrite Hp.
  destruct ij as [i j].
  split; [|split].
  - destruct lr_cut; rewrite Hn, Hg; reflexivity.
  - intros path e He. destruct lr_cut; rewrite Hn, Hg; cbn;
      unfold rbind; by rewrite He.
  - intros path c Hc Hk. destruct lr_cut; rewrite Hn, Hg; cbn;
      unfold rbind; rewrite Hc; cbn; by rewrite Hk.
Qed.

Lemma construction_checkpoint_errors_witness :
  __init__ strict_search (fun _ => rret (example_args None))
    (fun _ => rret (fun _ => rret net_234))
    (fun _ => rret ∅)
    h2 None "config.txt"%string (qc 0) None false = inl TypeError
  /\ __init__ strict_search (fun _ => rret (example_args None))
       (fun _ => rret (fun _ => rret net_234))
       (fun _ => rret ∅)
       h2 (Some "model.pt"%string) "config.txt"%string (qc 0) None false
     = inl KeyError.
Proof.
  destruct (construction_checkpoint_errors strict_search
              (fun _ => rret (example_args None))
              (fun _ => rret (fun _ => rret net_234))
              (fun _ => rret ∅)
              h2 "config.txt"%string (qc 0) None false
              (example_args None) (fun _ => rret net_234) ([0; 1], [1; 0])
              eq_refl eq_refl eq_refl) as (H1 & _ & H3).
  split; [exact H1|]. by apply (H3 "model.pt"%string ∅).
Defined.

(** X12: a calculator cannot be constructed for a periodic configuration
    without a long-range cutoff when the neighbour search refuses a
    missing cutoff: the evaluation inside construction raises, and
    construction with it. *)
Theorem construction_periodic_needs_cutoff
    (neighbor_list : string -> Atoms -> option Qc ->
                     res (list Z * list Z * list (Z * Z * Z)))
    (parse_args : string -> res Args)
    (PhysNet : Args -> res (StateDict -> res PhysNetModel))
    (torch_load : string -> res Checkpoint)
    (atoms : Atoms) (ckpt : option string) (config : string)
    (charge : Qc) (hessian : bool) (e : exn) :
  any_pbc atoms = true ->
  neighbor_list "ijS" atoms None = inl e ->
  ~ is_Some_res (__init__ neighbor_list parse_args PhysNet torch_load
                   atoms ckpt config charge None hessian).
Proof.
  intros Hpbc Hnl Hres.
  destruct (__init__ _ _ _ _ _ _ _ _ _ _) as [e'|self] eqn:Hinit;
    [done|].
  apply init_inv in Hinit as (s0 & _ & _ & Hlr & _ & [u Hu] & _).
  revert Hu. rewrite calculate_eq, find_neighbors_eq. fields.
  unfold lr_cutoff in Hlr. by rewrite Hpbc, orb_true_r, Hlr, Hnl.
Qed.

Lemma construction_periodic_needs_cutoff_witness :
  ~ is_Some_res
      (__init__ strict_search (fun _ => rret (example_args None))
         (fun _ => rret (fun _ => rret net_234))
         (fun _ => rret {[ "model_state_dict"%string := [] ]})
         h2_periodic (Some "model.pt"%string) "config.txt"%string (qc 0)
         None false).
Proof.
  apply (construction_periodic_needs_cutoff strict_search
           (fun _ => rret (example_args None))
           (fun _ => rret (fun _ => rret net_234))
           (fun _ => rret {[ "model_state_dict"%string := [] ]})
           h2_periodic (Some "model.pt"%string) "config.txt"%string (qc 0)
           false TypeError); reflexivity.
Defined.

(** ** Values of the uncertainty *)





(** ** The 'MD' branch, in general *)


Section MDValues.



(** X15: a packed prediction of fewer than six entries makes the 'MD'
    branch raise [IndexError]. *)
Theorem md_branch_short_prediction (self : Calc) (p : Pairs)
    (pred : ndarray) :
  md_call self p = inr pred -> (length pred < 6)%nat ->
  (md_branch p self).1 = inl IndexError.
Proof.
  intros Hcall Hlen.
  destruct p as [[[[[i j] o] si] sj] so].
  unfold md_branch, md_call in *. rewrite bind_get.
  destruct (hessian_active self); run.
  - destruct (energy_hessian_and_forces_md_evidencial _ _ _ _ _ _)
      as [e|[[[pr D'] F] Hs]]; [done|]. injection Hcall as ->.
    destruct pred as [|x0 [|x1 [|x2 [|x3 [|x4 [|x5 pred]]]]]];
      cbn in Hlen; try lia; by run.
  - destruct (energy_and_forces_md_evidencial _ _ _ _ _ _)
      as [e|[[pr D'] F]]; [done|]. injection Hcall as ->.
    destruct pred as [|x0 [|x1 [|x2 [|x3 [|x4 [|x5 pred]]]]]];
      cbn in Hlen; try lia; by run.
Qed.

Lemma md_branch_short_prediction_witness :
  (md_branch h2_pairs (example_calc (Some "MD"%string) net_ragged)).1
  = inl IndexError.
Proof.
  apply (md_branch_short_prediction
           (example_calc (Some "MD"%string) net_ragged) h2_pairs
           [Fin (qc 0); Fin (qc 0)]); [reflexivity|].
  vm_compute. lia.
Defined.

End MDValues.

(** ** Examples of the properties above *)

Lemma calculate_failure_keeps_results_witness :
  last_atoms (calculate strict_search h2_periodic
                (example_calc None net_234)).2
  = last_atoms (example_calc None net_234)
  /\ results (calculate strict_search h2_periodic
                (example_calc None net_234)).2
     = results (example_calc None net_234).
Proof.
  apply (calculate_failure_keeps_results strict_search h2_periodic
           (example_calc None net_234) TypeError).
  vm_compute. reflexivity.
Defined.


Lemma failed_evaluation_keeps_assignments_witness :
  (calculate strict_search h2 (example_calc None net_ragged)).1
  = inl ValueError
  /\ last_energy (calculate strict_search h2
                    (example_calc None net_ragged)).2
     = Some [Fin (qc 7)]
  /\ last_atoms (calculate strict_search h2
                   (example_calc None net_ragged)).2 = None.
Proof.
  destruct (failed_evaluation_keeps_assignments strict_search
              (example_calc None net_ragged) h2 h2_pairs
              [Fin (qc 7)] [Fin (qc 2)] [Fin (qc 3); Fin (qc 3)]
              [Fin (qc 4); Fin (qc 4); Fin (qc 4)] [] [Fin (qc 0)] None
              ValueError eq_refl eq_refl eq_refl)
    as (H1 & H2 & _ & _ & _ & H6 & _).
  by repeat split.
Defined.

Lemma calculate_reads_positions_only_witness :
  (calculate strict_search h2 (example_calc None net_234)).1
  = (calculate strict_search h2_relabelled (example_calc None net_234)).1
  /\ cached_values
       (calculate strict_search h2 (example_calc None net_234)).2
     = cached_values
         (calculate strict_search h2_relabelled
            (example_calc None net_234)).2.
Proof.
  apply (calculate_reads_positions_only strict_search
           (example_calc None net_234) h2 h2_relabelled); reflexivity.
Defined.

Lemma accessors_idempotent_witness :
  get_forces strict_search h2
    (get_forces strict_search h2 (example_calc None net_234)).2
  = (inr [Fin (qc 0)],
     (get_forces strict_search h2 (example_calc None net_234)).2).
Proof.
  destruct (accessors_idempotent strict_search h2) as (_ & _ & _ & H & _).
  apply (H (example_calc None net_234)).
  vm_compute. reflexivity.
Defined.

(** X16: the evaluation made during construction is never reused: the
    first query of a constructed calculator evaluates, also when it asks
    for the configuration the calculator was constructed with. *)
Theorem first_query_evaluates_again
    (neighbor_list : string -> Atoms -> option Qc ->
                     res (list Z * list Z * list (Z * Z * Z)))
    (parse_args : string -> res Args)
    (PhysNet : Args -> res (StateDict -> res PhysNetModel))
    (torch_load : string -> res Checkpoint)
    (atoms : Atoms) (ckpt : option string) (config : string)
    (charge : Qc) (lr_cut : option Qc) (hessian : bool)
    (constructed : Calc) (queried : Atoms) :
  __init__ neighbor_list parse_args PhysNet torch_load
    atoms ckpt config charge lr_cut hessian = inr constructed ->
  let after := fun s' => evaluations s' = [queried; atoms] in
  after (get_potential_energy neighbor_list queried constructed).2
  /\ after (get_potential_energy_and_uncertainty
              neighbor_list queried constructed).2
  /\ after (get_potential_energy_uncertainty_and_forces
              neighbor_list queried constructed).2
  /\ after (get_forces neighbor_list queried constructed).2
  /\ after (get_hessian neighbor_list queried constructed).2.
Proof.
  intros Hinit after. subst after. cbv beta.
  apply init_inv in Hinit as (s0 & Ht & _ & _ & _ & _ & ->).
  assert (Hev : evaluations (calculate neighbor_list atoms s0).2 = [atoms]).
  { rewrite calculate_evaluations. unfold evaluations. by rewrite Ht. }
  generalize dependent (calculate neighbor_list atoms s0).2.
  intros s' Hev.
  assert (Hgen : forall A (read : M A), reads read ->
            evaluations
              (gated neighbor_list queried read
                 (set_results ∅ (set_last_atoms None s'))).2
            = [queried; atoms]).
  { intros A read Hr. rewrite gated_evaluations by done.
    cbn [calculation_required last_atoms _last_atoms set_results
         set_last_atoms].
    unfold evaluations in *. cbn [trace set_results set_last_atoms].
    by rewrite Hev. }
  repeat split; apply Hgen; eauto 10 with reads.
Qed.

Lemma first_query_evaluates_again_witness :
  evaluations
    (get_potential_energy strict_search h2
       (built (example_calc None net_234)
          (construct None net_234 None false))).2 = [h2; h2].
Proof.
  destruct (first_query_evaluates_again strict_search
              (fun _ => rret (example_args None))
              (fun _ => rret (fun _ => rret net_234))
              (fun _ => rret {[ "model_state_dict"%string := [] ]})
              h2 (Some "model.pt"%string) "config.txt"%string (qc 0)
              None false
              (built (example_calc None net_234)
                 (construct None net_234 None false)) h2) as (H & _).
  - vm_compute. reflexivity.
  - exact H.
Defined.
